(** * Jarvis / Nestor: emotion routing and playback

    A shallow embedding of [videos/emotion_router.py] (the keyword
    classifier [EmotionRouter]) and of [videos/nestor_player.py] (the
    playback state machine [EmotionPlayer]), with the properties of the
    design specification stated and proved over it.

    Conventions of the embedding:
    - a Python [str] is the list of its Unicode code points;
    - a Python [float] is an IEEE 754 binary64 number ([PrimFloat.float]),
      with Python's [<], [>=], [==] and [+] being the IEEE operations;
    - a Python [dict] whose iteration order is observed (the routing
      tables) is an association list in insertion order; a dict that is
      only looked up (the media map) is a [gmap];
    - [time.time()] is an input of [analyze]; the VLC player is the trace
      of the calls it received, and what a method prints is part of what
      it yields. *)

From Stdlib Require Import ZArith NArith Floats Ascii String.
From stdpp Require Import base option list gmap sorting.

Local Open Scope Z_scope.

(* ===================================================================== *)
(** ** Python strings *)
(* ===================================================================== *)

Module PyStr.

(** A string is the sequence of its code points. *)
Definition str := list N.

(** Literals are written as ASCII strings. *)
Definition u (s : string) : str :=
  List.map N_of_ascii (list_ascii_of_string s).

(** [str.isspace] on one code point: the characters [str.split()]
    (no argument) treats as separators. *)
Definition is_space (c : N) : bool :=
  ((9 <=? c) && (c <=? 13) || (28 <=? c) && (c <=? 32)
   || (c =? 133) || (c =? 160) || (c =? 5760)
   || (8192 <=? c) && (c <=? 8202)
   || (c =? 8232) || (c =? 8233) || (c =? 8239) || (c =? 8287)
   || (c =? 12288))%N.

(** [s.split()]: maximal runs of non-space characters, in order.
    [cur] is the token being read. *)
Fixpoint split_from (cur s : str) : list str :=
  match s with
  | [] => match cur with [] => [] | _ => [cur] end
  | c :: s' =>
      if is_space c
      then match cur with
           | [] => split_from [] s'
           | _ => cur :: split_from [] s'
           end
      else split_from (cur ++ [c]) s'
  end.

Definition split (s : str) : list str := split_from [] s.

(** [p in t] for two strings: [p] occurs in [t] as a contiguous run. *)
Fixpoint startswith (t p : str) {struct p} : bool :=
  match p, t with
  | [], _ => true
  | _ :: _, [] => false
  | a :: p', b :: t' => (a =? b)%N && startswith t' p'
  end.

Fixpoint contains (t p : str) : bool :=
  startswith t p ||
  match t with
  | [] => false
  | _ :: t' => contains t' p
  end.

(** [x in xs] for a string and a list of strings. *)
Definition in_list (x : str) (xs : list str) : bool := bool_decide (x ∈ xs).

(** "Appears as a whole token": [k] is a non-empty run of non-space
    characters of [t] with a space or an end of the text on each side. *)
Definition nonspace (k : str) : Prop := Forall (fun c => is_space c = false) k.

Definition delimited_left (pre : str) : Prop :=
  pre = [] \/ exists p c, pre = p ++ [c] /\ is_space c = true.

Definition delimited_right (post : str) : Prop :=
  post = [] \/ exists c p, post = c :: p /\ is_space c = true.

Definition whole_token (k t : str) : Prop :=
  k <> [] /\ nonspace k /\
  exists pre post, t = pre ++ k ++ post /\ delimited_left pre /\ delimited_right post.

(** "Appears as a contiguous substring". *)
Definition substring (p t : str) : Prop := exists pre post, t = pre ++ p ++ post.

(** The two Unicode services the router uses: [str.lower] and the
    [unicodedata] tables behind [normalize('NFD', _)] and [category].
    They are data of the Python runtime, not of this repository, so the
    embedding is parametric in them. *)
Class Unicode := {
  lower : str -> str;
  normalize_NFD : str -> str;
  category_Mn : N -> bool
}.

End PyStr.

(* ===================================================================== *)
(** ** Python floats *)
(* ===================================================================== *)

Module PyFloat.

Definition lt (a b : float) : bool := PrimFloat.ltb a b.
Definition gt (a b : float) : bool := PrimFloat.ltb b a.
Definition ge (a b : float) : bool := PrimFloat.leb b a.
Definition eq (a b : float) : bool := PrimFloat.eqb a b.

End PyFloat.

(* ===================================================================== *)
(** ** Insertion-ordered dictionaries *)
(* ===================================================================== *)

Module Dict.
Import PyStr.

Definition dict (V : Type) := list (str * V).

(** [d.get(k)] *)
Fixpoint get {V} (k : str) (d : dict V) : option V :=
  match d with
  | [] => None
  | (k', v) :: d' => if decide (k = k') then Some v else get k d'
  end.

(** [d[k] = v]: an existing key keeps its position, a new key goes last. *)
Fixpoint set {V} (k : str) (v : V) (d : dict V) : dict V :=
  match d with
  | [] => [(k, v)]
  | (k', v') :: d' =>
      if decide (k = k') then (k', v) :: d' else (k', v') :: set k v d'
  end.

Definition keys {V} (d : dict V) : list str := d.*1.

(** The invariant of a Python dict: no key occurs twice. *)
Definition wf {V} (d : dict V) : Prop := NoDup (keys d).

End Dict.

(* ===================================================================== *)
(** ** The emotion router ([videos/emotion_router.py]) *)
(* ===================================================================== *)

Module Router.
Import PyStr Dict.

(** *** Configuration, as loaded from JSON

    Every level that the constructor reads with [.get(key, default)] is
    optional. *)

Record StrategyCfg := {
  cfg_min_score_to_trigger : option float;
  cfg_tie_breaker : option str;
  cfg_fallback : option str;
  cfg_cooldown_seconds : option float
}.

Record EmotionCfg := {
  cfg_keywords : option (dict float);
  cfg_phrases : option (dict float);
  cfg_priority : option Z
}.

Record RoutingCfg := {
  cfg_strategy : option StrategyCfg;
  cfg_emotions : option (dict EmotionCfg)
}.

Record Cfg := { cfg_routing : option RoutingCfg }.

Definition empty_strategy : StrategyCfg :=
  {| cfg_min_score_to_trigger := None; cfg_tie_breaker := None;
     cfg_fallback := None; cfg_cooldown_seconds := None |}.

(** *** The object *)

Record EmotionRouter := {
  cfg : Cfg;
  last_trigger_ts : float;
  strategy : StrategyCfg;
  min_score : float;
  tie_breaker : str;
  fallback : str;
  cooldown : float;
  routing : dict EmotionCfg;
  priority : dict Z
}.

Definition set_last_trigger_ts (r : EmotionRouter) (ts : float) : EmotionRouter :=
  {| cfg := cfg r; last_trigger_ts := ts; strategy := strategy r;
     min_score := min_score r; tie_breaker := tie_breaker r;
     fallback := fallback r; cooldown := cooldown r;
     routing := routing r; priority := priority r |}.

(** [EmotionRouter.__init__] *)
Definition __init__ (c : Cfg) : EmotionRouter :=
  let strat := default empty_strategy (cfg_routing c ≫= cfg_strategy) in
  let rout := default [] (cfg_routing c ≫= cfg_emotions) in
  {| cfg := c;
     last_trigger_ts := 0%float;
     strategy := strat;
     min_score := default 1%float (cfg_min_score_to_trigger strat);
     tie_breaker := default (u "priority") (cfg_tie_breaker strat);
     fallback := default (u "idle") (cfg_fallback strat);
     cooldown := default 2%float (cfg_cooldown_seconds strat);
     routing := rout;
     priority :=
       fold_left (fun acc '(emo, data) =>
                    Dict.set emo (default 0 (cfg_priority data)) acc)
                 rout [] |}.

(** [self.priority.get(emo, 0)]; [emo] is [None] as long as nothing was
    picked. *)
Definition priority_get (r : EmotionRouter) (emo : option str) : Z :=
  match emo with
  | Some e => default 0 (Dict.get e (priority r))
  | None => 0
  end.

(** One iteration of the loop of [_pick_best]. *)
Definition pick_step (r : EmotionRouter) (best : option str * float)
    (item : str * float) : option str * float :=
  let '(best_emo, best_score) := best in
  let '(emo, s) := item in
  if PyFloat.gt s best_score then (Some emo, s)
  else if PyFloat.eq s best_score && PyFloat.gt s 0 then
    if decide (tie_breaker r = u "priority") then
      if decide (priority_get r (Some emo) > priority_get r best_emo)
      then (Some emo, s)
      else best
    else best
  else best.

(** [best_emo or self.fallback]: [None] and the empty string are falsy. *)
Definition or_fallback (r : EmotionRouter) (best_emo : option str) : str :=
  match best_emo with
  | None | Some [] => fallback r
  | Some e => e
  end.

(** [EmotionRouter._pick_best] *)
Definition _pick_best (r : EmotionRouter) (scores : dict float) : str * float :=
  let '(best_emo, best_score) :=
    fold_left (pick_step r) scores (None, (-1)%float) in
  (or_fallback r best_emo, best_score).

(** An item of [scores] whose score is strictly below [s]. *)
Definition below (s : float) (item : str * float) : Prop :=
  PyFloat.lt item.2 s = true.

Section Analyze.
Context `{Unicode}.

(** [strip_accents] *)
Definition strip_accents (s : str) : str :=
  List.filter (fun c => negb (category_Mn c)) (normalize_NFD s).

(** The first inner loop of [analyze]: keywords, matched against the
    tokens of the normalised text [t]. *)
Definition keyword_step (t : str) (score : float) (item : str * float) : float :=
  let '(kw, w) := item in
  if in_list (strip_accents (lower kw)) (split t)
  then (score + w)%float else score.

(** The second inner loop: phrases, matched as substrings of [t]. *)
Definition phrase_step (t : str) (score : float) (item : str * float) : float :=
  let '(ph, w) := item in
  if contains t (strip_accents (lower ph))
  then (score + w)%float else score.

(** The body of the outer loop: the score of one emotion. *)
Definition emotion_score (t : str) (data : EmotionCfg) : float :=
  let score := 0%float in
  let score := fold_left (keyword_step t) (default [] (cfg_keywords data)) score in
  let score := fold_left (phrase_step t) (default [] (cfg_phrases data)) score in
  score.

(** The scoring loop of [analyze]: builds the dict [scores]. *)
Definition score_all (r : EmotionRouter) (t : str) : dict float :=
  fold_left (fun scores '(emo, data) => Dict.set emo (emotion_score t data) scores)
            (routing r) [].

(** [EmotionRouter.analyze]; [now] is the value of [time.time()].
    Returns the router after the call and the pair the call returns. *)
Definition analyze (r : EmotionRouter) (now : float) (text : str)
    : EmotionRouter * (str * float) :=
  if PyFloat.lt (now - last_trigger_ts r)%float (cooldown r)
  then (r, (fallback r, 0%float))
  else
    let t := strip_accents (lower text) in
    let scores := score_all r t in
    let '(best_emo, best_score) := _pick_best r scores in
    if PyFloat.ge best_score (min_score r)
    then (set_last_trigger_ts r now, (best_emo, best_score))
    else (r, (fallback r, 0%float)).

End Analyze.

End Router.

(* ===================================================================== *)
(** ** The Unicode tables on Latin-1 text *)
(* ===================================================================== *)

Module Latin1.
Import PyStr.

(** [str.lower] on one code point below U+0100: A-Z and the capital
    letters U+00C0-U+00DE (the multiplication sign U+00D7 is not one). *)
Definition lower_cp (c : N) : N :=
  (if (65 <=? c) && (c <=? 90) then c + 32
   else if (192 <=? c) && (c <=? 222) && negb (c =? 215) then c + 32
   else c)%N.

(** Canonical decompositions of the capital letters U+00C0-U+00DE, by
    offset from U+00C0: base letter and combining mark. The small letters
    U+00E0-U+00FE decompose alike, with the small base letter. *)
Definition decomposition (i : N) : option (N * N) :=
  (match i with
   | 0 => Some (65, 768) | 1 => Some (65, 769) | 2 => Some (65, 770)
   | 3 => Some (65, 771) | 4 => Some (65, 776) | 5 => Some (65, 778)
   | 7 => Some (67, 807)
   | 8 => Some (69, 768) | 9 => Some (69, 769) | 10 => Some (69, 770)
   | 11 => Some (69, 776)
   | 12 => Some (73, 768) | 13 => Some (73, 769) | 14 => Some (73, 770)
   | 15 => Some (73, 776)
   | 17 => Some (78, 771)
   | 18 => Some (79, 768) | 19 => Some (79, 769) | 20 => Some (79, 770)
   | 21 => Some (79, 771) | 22 => Some (79, 776)
   | 25 => Some (85, 768) | 26 => Some (85, 769) | 27 => Some (85, 770)
   | 28 => Some (85, 776)
   | 29 => Some (89, 769)
   | _ => None
   end)%N.

(** NFD of one code point below U+0100 (U+00FF is y with diaeresis). *)
Definition nfd_cp (c : N) : str :=
  (if (192 <=? c) && (c <=? 222) then
     match decomposition (c - 192) with
     | Some (b, m) => [b; m]
     | None => [c]
     end
   else if (224 <=? c) && (c <=? 254) then
     match decomposition (c - 224) with
     | Some (b, m) => [b + 32; m]
     | None => [c]
     end
   else if c =? 255 then [121; 776]
   else [c])%N.

(** General category [Mn] below U+0370: exactly the combining
    diacritical marks U+0300-U+036F. *)
Definition is_Mn (c : N) : bool := ((768 <=? c) && (c <=? 879))%N.

(** The tables of the Python runtime, for text below U+0100. Code points
    outside that range are left as they are. *)
#[export] Instance tables : Unicode := {|
  lower := List.map lower_cp;
  normalize_NFD := fun s => List.concat (List.map nfd_cp s);
  category_Mn := is_Mn
|}.

End Latin1.

(* ===================================================================== *)
(** ** The configuration of the specification's scenario *)
(* ===================================================================== *)

Module Scenario.
Import PyStr Dict Router.

Definition tristesse (prio : option Z) : EmotionCfg :=
  {| cfg_keywords := Some [(u "triste", 1%float)];
     cfg_phrases := Some [(u "mon chat est mort", 3%float)];
     cfg_priority := prio |}.

(** One emotion [tristesse] and [min_score_to_trigger = 1.0]; everything
    else is left to the caller. *)
Definition config (tb fb : option str) (cd : option float) (prio : option Z) : Cfg :=
  {| cfg_routing := Some
       {| cfg_strategy := Some
            {| cfg_min_score_to_trigger := Some 1%float;
               cfg_tie_breaker := tb;
               cfg_fallback := fb;
               cfg_cooldown_seconds := cd |};
          cfg_emotions := Some [(u "tristesse", tristesse prio)] |} |}.

(** The same with every optional setting absent (cooldown 2.0, fallback
    [idle], tie-breaker [priority]). *)
Definition default_config : Cfg := config None None None None.

(** Two emotions whose only keyword has a negative weight. *)
Definition negative_config : Cfg :=
  {| cfg_routing := Some
       {| cfg_strategy := None;
          cfg_emotions := Some
            [(u "a", {| cfg_keywords := Some [(u "x", (-2)%float)];
                        cfg_phrases := None; cfg_priority := None |});
             (u "b", {| cfg_keywords := Some [(u "x", (-3)%float)];
                        cfg_phrases := None; cfg_priority := None |})] |} |}.

(** Two emotions with the same keyword and weight; [pa] and [pb] are
    their priorities. *)
Definition tie_config (pa pb : option Z) : Cfg :=
  {| cfg_routing := Some
       {| cfg_strategy := None;
          cfg_emotions := Some
            [(u "joie", {| cfg_keywords := Some [(u "super", 2%float)];
                           cfg_phrases := None; cfg_priority := pa |});
             (u "surprise", {| cfg_keywords := Some [(u "super", 2%float)];
                               cfg_phrases := None; cfg_priority := pb |})] |} |}.

(** One emotion with the single keyword [triste], and one with the single
    phrase [triste]. *)
Definition keyword_only : EmotionCfg :=
  {| cfg_keywords := Some [(u "triste", 1%float)];
     cfg_phrases := None; cfg_priority := None |}.

Definition phrase_only : EmotionCfg :=
  {| cfg_keywords := None;
     cfg_phrases := Some [(u "triste", 1%float)]; cfg_priority := None |}.

End Scenario.

(* ===================================================================== *)
(** ** The player ([videos/nestor_player.py]) *)
(* ===================================================================== *)

Module Player.
Import PyStr.

(** An entry of [media_map], as built by [_resolve_media_paths]. *)
Record MediaInfo := {
  file : str;
  loop : bool;
  description : str
}.

(** The calls made on the VLC objects. *)
Inductive VlcCall :=
| SetMedia (path : str)
| AddOption (opt : str)
| Play.

(** What is printed. *)
Inductive Output :=
| InfoUnknownEmotion (name : str)
| WarnMissingFile (name path : str).

Inductive Exn :=
| KeyError (key : str)
| ValueError.

(** The fields of [EmotionPlayer] that the operations read or write;
    [player] is the VLC media player, seen through the calls it received. *)
Record EmotionPlayer := {
  media_map : gmap str MediaInfo;
  current_mode : str;
  idle_name : str;
  player : list VlcCall
}.

Definition set_current_mode (name : str) (p : EmotionPlayer) : EmotionPlayer :=
  {| media_map := media_map p; current_mode := name;
     idle_name := idle_name p; player := player p |}.

Definition vlc_call (c : VlcCall) (p : EmotionPlayer) : EmotionPlayer :=
  {| media_map := media_map p; current_mode := current_mode p;
     idle_name := idle_name p; player := player p ++ [c] |}.

(** A method body: it runs on the object, prints, and either returns or
    raises; the object keeps what was written before a raise. *)
Record Run (A : Type) := MkRun {
  result : Exn + A;
  self : EmotionPlayer;
  printed : list Output
}.
Arguments MkRun {A}.
Arguments result {A}.
Arguments self {A}.
Arguments printed {A}.

Definition M (A : Type) : Type := EmotionPlayer -> Run A.

Definition ret {A} (a : A) : M A := fun p => MkRun (inr a) p [].

Definition bind {A B} (m : M A) (k : A -> M B) : M B := fun p =>
  let r := m p in
  match result r with
  | inl e => MkRun (inl e) (self r) (printed r)
  | inr a => let r' := k a (self r) in
             MkRun (result r') (self r') (printed r ++ printed r')
  end.

Definition raise {A} (e : Exn) : M A := fun p => MkRun (inl e) p [].
Definition get_self : M EmotionPlayer := fun p => MkRun (inr p) p [].
Definition modify (f : EmotionPlayer -> EmotionPlayer) : M unit :=
  fun p => MkRun (inr tt) (f p) [].
Definition print (o : Output) : M unit := fun p => MkRun (inr tt) p [o].

#[export] Instance M_ret : MRet M := @ret.
#[export] Instance M_bind : MBind M := fun A B k m => bind m k.

(** [self.media_map[name]] *)
Definition media_lookup (name : str) : M MediaInfo :=
  p ← get_self;
  match media_map p !! name with
  | Some info => ret info
  | None => raise (KeyError name)
  end.

(** The invariant of a player object: the idle entry exists under the
    name [idle]. *)
Definition has_idle (p : EmotionPlayer) : Prop :=
  idle_name p = u "idle" /\ is_Some (media_map p !! idle_name p).

Section Methods.
(** [os.path.exists] *)
Variable path_exists : str -> bool.

(** [_play_media] *)
Definition _play_media (name : str) (loop : bool) : M unit :=
  info ← media_lookup name;
  let path := file info in
  (if path_exists path then ret tt else print (WarnMissingFile name path)) ;;
  modify (vlc_call (SetMedia path)) ;;
  (if loop then modify (vlc_call (AddOption (u "input-repeat=-1"))) else ret tt) ;;
  modify (vlc_call Play).

(** [_play_idle] *)
Definition _play_idle : M unit :=
  p ← get_self;
  modify (set_current_mode (idle_name p)) ;;
  _ ← media_lookup (idle_name p);
  _play_media (idle_name p) true.

(** [_prepare_idle] *)
Definition _prepare_idle : M unit :=
  p ← get_self;
  match media_map p !! idle_name p with
  | None => raise ValueError
  | Some _ => _play_idle
  end.

(** [__init__], from the point where [media_map] has been resolved. *)
Definition __init__ (media : gmap str MediaInfo) : Run unit :=
  _prepare_idle {| media_map := media; current_mode := u "idle";
                  idle_name := u "idle"; player := [] |}.

(** [trigger_emotion], run under [self.lock]. *)
Definition trigger_emotion (name : str) : M unit :=
  p ← get_self;
  match media_map p !! name with
  | None => print (InfoUnknownEmotion name)
  | Some _ =>
      if decide (name = idle_name p) then _play_idle
      else
        modify (set_current_mode name) ;;
        _play_media name false
  end.

(** [_on_media_end], run under [self.lock]. *)
Definition _on_media_end : M unit :=
  p ← get_self;
  if decide (current_mode p <> idle_name p) then _play_idle else _play_idle.

(** The same method called [n] times in a row; a raise ends the run. *)
Fixpoint times (n : nat) (m : M unit) : M unit :=
  match n with
  | O => ret tt
  | S n' => m ;; times n' m
  end.

(** The states a player object can be in: the one a successful
    constructor leaves, and those the two operations lead to. *)
Inductive reachable : EmotionPlayer -> Prop :=
| reach_init media r :
    __init__ media = r -> result r = inr tt -> reachable (self r)
| reach_trigger p name :
    reachable p -> reachable (self (trigger_emotion name p))
| reach_media_end p :
    reachable p -> reachable (self (_on_media_end p)).

End Methods.

End Player.

(** A media map with [idle] and one emotion, all files present. *)
Module PlayerScenario.
Import PyStr Player.

Definition media : gmap str MediaInfo :=
  list_to_map
    [(u "idle", {| file := u "/videos/idle.mp4"; loop := true; description := [] |});
     (u "joie", {| file := u "/videos/joie.mp4"; loop := false; description := [] |})].

Definition all_present (path : str) : bool := true.

End PlayerScenario.

(* ===================================================================== *)
(** ** Concurrent callers of [analyze] *)
(* ===================================================================== *)

(** [analyze] takes no lock, and the HTTP server runs its handlers in
    separate threads on one shared router. A call is therefore modelled
    in two steps, between which other threads may run: the cooldown gate
    (lines 30-32, which read [last_trigger_ts]) and the rest of the body
    (lines 35-54, which may write it). *)

Module Interleaving.
Import PyStr Dict Router.

(** Where a call of [analyze] stands; [now] is the value [time.time()]
    gives to this call. *)
Inductive Call :=
| Entered (now : float) (text : str)
| PastGate (now : float) (text : str)
| Returned (res : str * float).

Section Steps.
Context `{Unicode}.

(** Lines 30-32 of [analyze]. *)
Definition gate_step (r : EmotionRouter) (now : float) (text : str) : Call :=
  if PyFloat.lt (now - last_trigger_ts r)%float (cooldown r)
  then Returned (fallback r, 0%float)
  else PastGate now text.

(** Lines 35-54 of [analyze]. *)
Definition score_step (r : EmotionRouter) (now : float) (text : str)
    : EmotionRouter * Call :=
  let t := strip_accents (lower text) in
  let scores := score_all r t in
  let '(best_emo, best_score) := _pick_best r scores in
  if PyFloat.ge best_score (min_score r)
  then (set_last_trigger_ts r now, Returned (best_emo, best_score))
  else (r, Returned (fallback r, 0%float)).

Definition step (r : EmotionRouter) (c : Call) : EmotionRouter * Call :=
  match c with
  | Entered now text => (r, gate_step r now text)
  | PastGate now text => score_step r now text
  | Returned _ => (r, c)
  end.

(** The shared router and the calls in progress, one per thread. *)
Definition System : Type := EmotionRouter * list Call.

(** Thread [i] runs its next step. *)
Definition sched_step (sys : System) (i : nat) : System :=
  let '(r, calls) := sys in
  match calls !! i with
  | Some c => let '(r', c') := step r c in (r', <[i := c']> calls)
  | None => sys
  end.

(** A schedule names the thread that runs at each moment. *)
Definition run (schedule : list nat) (sys : System) : System :=
  fold_left sched_step schedule sys.

End Steps.

(** The [now] of a call that has not returned, and those of a system. *)
Definition call_now (c : Call) : option float :=
  match c with
  | Entered now _ | PastGate now _ => Some now
  | Returned _ => None
  end.

Definition nows (calls : list Call) : list float := omap call_now calls.

(** What every schedule preserves: the router differs from the initial
    one in [last_trigger_ts] alone, which holds its initial value or the
    [now] of one of the calls. *)
Definition inv (r0 : EmotionRouter) (calls0 : list Call)
    (sys : EmotionRouter * list Call) : Prop :=
  sys.1 = set_last_trigger_ts r0 (last_trigger_ts sys.1)
  /\ (last_trigger_ts sys.1 = last_trigger_ts r0
      \/ last_trigger_ts sys.1 ∈ nows calls0)
  /\ (forall now, now ∈ nows sys.2 -> now ∈ nows calls0).


End Interleaving.

(* ===================================================================== *)
(** ** More of Python's strings *)
(* ===================================================================== *)

Module PyText.
Import PyStr.

(** [s.lstrip()], [s.rstrip()] and [s.strip()] with no argument: the
    white space of [str.isspace] is removed from the ends. *)
Fixpoint lstrip (s : str) : str :=
  match s with
  | [] => []
  | c :: s' => if is_space c then lstrip s' else s
  end.

Definition rstrip (s : str) : str := rev (lstrip (rev s)).

Definition strip (s : str) : str := rstrip (lstrip s).

(** [s.endswith(suffix)] *)
Definition endswith (s suffix : str) : bool := startswith (rev s) (rev suffix).

(** The truth value of a string: [not s] holds for the empty one. *)
Definition truthy (s : str) : bool :=
  match s with
  | [] => false
  | _ :: _ => true
  end.

(** [a <= b] on strings: code point by code point, a proper prefix first. *)
Fixpoint leb (a b : str) : bool :=
  match a, b with
  | [], _ => true
  | _ :: _, [] => false
  | x :: a', y :: b' => (x <? y)%N || ((x =? y)%N && leb a' b')
  end.

Definition le (a b : str) : Prop := leb a b = true.

#[export] Instance le_dec (a b : str) : Decision (le a b).
Proof. unfold le. apply _. Defined.

(** [sorted(xs)] for a collection of strings. *)
Definition sorted (xs : list str) : list str := merge_sort le xs.

End PyText.

(* ===================================================================== *)
(** ** The console of the player ([videos/nestor_player.py]) *)
(* ===================================================================== *)

Module PlayerConsole.
Import PyStr PyText Player.

(** What the console shows: the messages of the player's operations and
    the lines of [list_emotions]. *)
Inductive ConsoleOut :=
| Message (o : Output)
| Line (text : str).

(** One line of [list_emotions]; the dash before the description is
    U+2014. *)
Definition emotion_line (k : str) (meta : MediaInfo) : str :=
  let desc := description meta in
  let loop_str := if loop meta then u " (loop)" else [] in
  u "  - " ++ k ++ loop_str ++ u " -> " ++ file meta
    ++ (if truthy desc then (u " " ++ [8212%N] ++ u " ") ++ desc else []).

(** [list_emotions]: the lines it prints. Every name it looks up comes
    from the keys of the map. *)
Definition list_emotions (p : EmotionPlayer) : list str :=
  ([201%N] ++ u "motions disponibles:")
  :: omap (fun k => emotion_line k <$> media_map p !! k)
          (sorted (map_to_list (media_map p)).*1).

(** How the loop of [run] stands when the lines queued so far have been
    read: it has left on a quit command, it waits for more input, or an
    operation has raised. *)
Inductive LoopState :=
| Left
| Waiting
| Raised (e : Exn).

Section Run.
Context `{Unicode}.
Variable path_exists : str -> bool.

(** The [while] loop of [run] (lines 178-192) on the lines that reach
    the command queue, in order; no interrupt sets [stop_flag]. *)
Fixpoint run_loop (cmds : list str) (p : EmotionPlayer)
    : LoopState * EmotionPlayer * list ConsoleOut :=
  match cmds with
  | [] => (Waiting, p, [])
  | cmd :: cmds' =>
      let cmd := strip cmd in
      if negb (truthy cmd) then run_loop cmds' p
      else if bool_decide (lower cmd ∈ [u "quit"; u "exit"; u "q"]) then (Left, p, [])
      else if bool_decide (lower cmd = u "list") then
        let '(st, p', out) := run_loop cmds' p in
        (st, p', (Line <$> list_emotions p) ++ out)
      else
        let r := trigger_emotion path_exists cmd p in
        match result r with
        | inl e => (Raised e, self r, Message <$> printed r)
        | inr _ =>
            let '(st, p', out) := run_loop cmds' (self r) in
            (st, p', (Message <$> printed r) ++ out)
        end
  end.

End Run.

End PlayerConsole.

(* ===================================================================== *)
(** ** The configuration of the player ([videos/nestor_player.py]) *)
(* ===================================================================== *)

Module PlayerConfig.
Import PyStr Dict Player.

(** A value read by [json.load]. *)
#[warnings="-register-all"]
Inductive Json :=
| JNull
| JBool (b : bool)
| JInt (n : Z)
| JFloat (x : float)
| JString (s : str)
| JArray (items : list Json)
| JObject (fields : list (str * Json)).

(** [bool(x)] *)
Definition json_truthy (j : Json) : bool :=
  match j with
  | JNull => false
  | JBool b => b
  | JInt n => negb (n =? 0)
  | JFloat x => negb (PyFloat.eq x 0)
  | JString s => PyText.truthy s
  | JArray items => match items with [] => false | _ => true end
  | JObject fields => match fields with [] => false | _ => true end
  end.

(** An entry of the dict that [_resolve_media_paths] builds. *)
Record Resolved := {
  r_file : str;
  r_loop : bool;
  r_description : Json
}.

(** What the constructor can raise before the player exists. *)
Inductive InitExn :=
| FromPlayer (e : Exn)
| TypeError
| AttributeError.

(** The check made on every entry of ["emotions"]. *)
Definition check_entry (meta : Json) : bool :=
  match meta with
  | JObject fields => bool_decide (is_Some (Dict.get (u "file") fields))
  | _ => false
  end.

(** [_validate_config]; every failure is a [ValueError]. *)
Definition _validate_config (cfg : dict Json) : Exn + unit :=
  match Dict.get (u "emotions") cfg with
  | Some (JObject emotions) =>
      if negb (bool_decide (is_Some (Dict.get (u "idle") emotions)))
      then inl ValueError
      else if forallb (fun item => check_entry item.2) emotions
      then inr tt
      else inl ValueError
  | _ => inl ValueError
  end.

Section Paths.
(** [os.path.isabs], [os.path.abspath] and [os.path.join] *)
Variable isabs : str -> bool.
Variable abspath : str -> str.
Variable join : str -> str -> str.

(** The body of the loop of [_resolve_media_paths]: [os.path.isabs]
    accepts strings only, and [meta.get] needs a dict. *)
Definition resolve_entry (base_dir : str) (meta : Json) : InitExn + Resolved :=
  match meta with
  | JObject fields =>
      match default (JString []) (Dict.get (u "file") fields) with
      | JString file_path =>
          inr {| r_file := if isabs file_path then file_path
                           else abspath (join base_dir file_path);
                 r_loop := json_truthy (default (JBool false) (Dict.get (u "loop") fields));
                 r_description := default (JString []) (Dict.get (u "description") fields) |}
      | _ => inl TypeError
      end
  | _ => inl AttributeError
  end.

(** [_resolve_media_paths] *)
Fixpoint resolve_from (base_dir : str) (items : list (str * Json))
    (out : dict Resolved) : InitExn + dict Resolved :=
  match items with
  | [] => inr out
  | (name, meta) :: items' =>
      match resolve_entry base_dir meta with
      | inl e => inl e
      | inr info => resolve_from base_dir items' (Dict.set name info out)
      end
  end.

Definition _resolve_media_paths (base_dir : str) (emotions_obj : dict Json)
    : InitExn + dict Resolved :=
  resolve_from base_dir emotions_obj [].

(** The entry as the operations of the player see it: they read [file]
    and nothing else, and [list_emotions] reads the description, taken to
    be a string as the configuration format has it. *)
Definition media_info (info : Resolved) : MediaInfo :=
  {| file := r_file info;
     loop := r_loop info;
     description := match r_description info with JString s => s | _ => [] end |}.

Definition to_media_map (out : dict Resolved) : gmap str MediaInfo :=
  list_to_map (prod_map id media_info <$> out).

Variable path_exists : str -> bool.

(** [EmotionPlayer.__init__] on a configuration already read from the
    file: validation, resolution of the paths, then the rest of the
    constructor. *)
Definition construct (base_dir : str) (cfg : dict Json) : InitExn + EmotionPlayer :=
  match _validate_config cfg with
  | inl e => inl (FromPlayer e)
  | inr _ =>
      match Dict.get (u "emotions") cfg with
      | None => inl (FromPlayer (KeyError (u "emotions")))
      | Some (JObject emotions) =>
          match _resolve_media_paths base_dir emotions with
          | inl e => inl e
          | inr out =>
              let r := __init__ path_exists (to_media_map out) in
              match result r with
              | inl e => inl (FromPlayer e)
              | inr _ => inr (self r)
              end
          end
      | Some _ => inl AttributeError
      end
  end.

End Paths.

End PlayerConfig.

(* ===================================================================== *)
(** ** The orchestrator ([videos/master_nestor_http.py]) *)
(* ===================================================================== *)

Module Master.
Import PyStr PyText Router.

(** [generate_reply] *)
Definition generate_reply (user_text : str) : str :=
  if negb (truthy user_text) then u "Oui, je suis l" ++ [224%N] ++ u "."
  else if endswith user_text (u "?")
  then u "Bonne question. Laisse-moi y penser une seconde."
  else (u "Je t'" ++ [233%N] ++ u "coute. ") ++ user_text.

(** The fields of [NestorCore] that its methods use after construction;
    [NestorMaster] of [master_nestor (1).py] has the same ones. *)
Record NestorCore := {
  router : option EmotionRouter;
  player : Player.EmotionPlayer;
  print_logs : bool
}.

Definition set_router (c : NestorCore) (r : option EmotionRouter) : NestorCore :=
  {| router := r; player := player c; print_logs := print_logs c |}.

Definition set_player (c : NestorCore) (p : Player.EmotionPlayer) : NestorCore :=
  {| router := router c; player := p; print_logs := print_logs c |}.

(** What a method lets the outside see, in order: the lines the player
    prints, the log line of the router and the texts handed to the
    speech synthesiser. *)
Inductive Event :=
| Console (o : Player.Output)
| RouterLog (emo : str) (score : float)
| Say (text : str).

(** A method body on the orchestrator: it returns or raises, and leaves
    the object and the events behind. *)
Record Outcome (A : Type) := MkOutcome {
  value : Player.Exn + A;
  core : NestorCore;
  events : list Event
}.
Arguments MkOutcome {A}.
Arguments value {A}.
Arguments core {A}.
Arguments events {A}.

Definition Act (A : Type) : Type := NestorCore -> Outcome A.

Definition pure {A} (a : A) : Act A := fun c => MkOutcome (inr a) c [].

Definition andthen {A B} (m : Act A) (k : A -> Act B) : Act B := fun c =>
  let o := m c in
  match value o with
  | inl e => MkOutcome (inl e) (core o) (events o)
  | inr a => let o' := k a (core o) in
             MkOutcome (value o') (core o') (events o ++ events o')
  end.

Notation "'doing' x 'from' m 'then' k" := (andthen m (fun x => k))
  (at level 10, x name, m at level 100, k at level 200).

(** The answer of [chat]. *)
Record ChatResult := {
  reply : str;
  emotion_in : option str;
  emotion_in_score : float;
  emotion_reply : option str;
  emotion_reply_score : float
}.

Section Methods.
Context `{Unicode}.
(** [os.path.exists], for the player. *)
Variable path_exists : str -> bool.

(** [NestorCore.route_emotion]; [now] is the time at which the router
    reads the clock. *)
Definition route_emotion (now : float) (text : str) : Act (option str * float) :=
  fun c =>
  match router c with
  | None => MkOutcome (inr (None, 0%float)) c []
  | Some r =>
      let '(r', (emo, score)) := analyze r now text in
      let c' := set_router c (Some r') in
      if truthy emo && negb (bool_decide (emo = u "idle"))
      then MkOutcome (inr (Some emo, score)) c'
             (if print_logs c then [RouterLog emo score] else [])
      else MkOutcome (inr (None, 0%float)) c' []
  end.

(** [self.player.trigger_emotion(name)] *)
Definition player_trigger (name : str) : Act unit := fun c =>
  let r := Player.trigger_emotion path_exists name (player c) in
  MkOutcome (Player.result r) (set_player c (Player.self r))
            (Console <$> Player.printed r).

(** [NestorCore.trigger] *)
Definition trigger (emotion : str) : Act bool :=
  if negb (truthy emotion) then pure false
  else doing _ from player_trigger emotion then pure true.

(** [NestorCore.say] *)
Definition say (text : str) : Act unit := fun c => MkOutcome (inr tt) c [Say text].

(** [if emo: self.player.trigger_emotion(emo)] *)
Definition trigger_if (emo : option str) : Act unit :=
  match emo with
  | Some e => if truthy e then player_trigger e else pure tt
  | None => pure tt
  end.

(** [NestorCore.chat]; the router reads the clock at [now_in] for the
    text and at [now_reply] for the reply. *)
Definition chat (now_in now_reply : float) (text : str) : Act ChatResult :=
  doing r_in from route_emotion now_in text then
  doing _ from trigger_if r_in.1 then
  let reply := generate_reply text in
  doing r_reply from route_emotion now_reply reply then
  doing _ from trigger_if r_reply.1 then
  doing _ from say reply then
  pure {| reply := reply;
          emotion_in := r_in.1; emotion_in_score := r_in.2;
          emotion_reply := r_reply.1; emotion_reply_score := r_reply.2 |}.

(** [NestorMaster.handle_text] of [master_nestor (1).py]; [None] is the
    end of the input. *)
Definition handle_text (now_in now_reply : float) (text : option str) : Act bool :=
  match text with
  | None => pure false
  | Some text =>
      let text := strip text in
      if bool_decide (lower text ∈ [u "quit"; u "exit"]) then pure false
      else
        doing r_in from route_emotion now_in text then
        doing _ from trigger_if r_in.1 then
        let reply := generate_reply text in
        doing r_reply from route_emotion now_reply reply then
        doing _ from trigger_if r_reply.1 then
        doing _ from say reply then
        pure true
  end.

End Methods.

End Master.

(* ===================================================================== *)
(** * Properties *)
(* ===================================================================== *)

(** ** Comparisons of floats *)

Module PyFloatFacts.

Lemma SFcompare_antisym (x y : spec_float) :
  SFcompare y x = option_map CompOpp (SFcompare x y).
Proof.
  destruct x as [[]|[]| |[] mx ex], y as [[]|[]| |[] my ey]; simpl; try reflexivity.
  all: change (Pos.compare_cont Eq my mx) with (my ?= mx)%positive.
  all: change (Pos.compare_cont Eq mx my) with (mx ?= my)%positive.
  all: rewrite (Z.compare_antisym ex ey), (Pos.compare_antisym mx my).
  all: destruct (ex ?= ey)%Z; simpl; try reflexivity.
  all: destruct (mx ?= my)%positive; reflexivity.
Qed.

Lemma SFcompare_Eq_r (x y z : spec_float) :
  SFcompare x y = Some Eq -> SFcompare z x = SFcompare z y.
Proof.
  destruct x as [[]|[]| |[] mx ex], y as [[]|[]| |[] my ey]; simpl; try discriminate;
    try reflexivity.
  all: try (intros _; destruct z as [[]|[]| |[] ? ?]; reflexivity).
  all: change (Pos.compare_cont Eq mx my) with (mx ?= my)%positive.
  all: destruct (ex ?= ey)%Z eqn:He; try discriminate.
  all: destruct (mx ?= my)%positive eqn:Hm; try discriminate.
  all: apply Z.compare_eq in He; apply Pos.compare_eq in Hm; subst; reflexivity.
Qed.

Ltac to_spec :=
  unfold PyFloat.lt, PyFloat.gt, PyFloat.ge, PyFloat.eq in *;
  rewrite ?FloatAxioms.ltb_spec, ?FloatAxioms.leb_spec, ?FloatAxioms.eqb_spec in *;
  unfold SFltb, SFleb, SFeqb in *.

(** [a < b] excludes [b < a], [a == b] and [b == a]. *)
Lemma lt_excl (a b : float) :
  PyFloat.lt a b = true ->
  PyFloat.lt b a = false /\ PyFloat.eq a b = false /\ PyFloat.eq b a = false.
Proof.
  to_spec. rewrite (SFcompare_antisym (Prim2SF a) (Prim2SF b)).
  destruct (SFcompare (Prim2SF a) (Prim2SF b)) as [[]|]; simpl; intros E;
    try discriminate E; auto.
Qed.

(** [a == b] excludes [a < b] and [b < a]. *)
Lemma eq_excl (a b : float) :
  PyFloat.eq a b = true -> PyFloat.lt a b = false /\ PyFloat.lt b a = false.
Proof.
  to_spec. rewrite (SFcompare_antisym (Prim2SF a) (Prim2SF b)).
  destruct (SFcompare (Prim2SF a) (Prim2SF b)) as [[]|]; simpl; intros E;
    try discriminate E; auto.
Qed.

Lemma eq_sym (a b : float) : PyFloat.eq a b = PyFloat.eq b a.
Proof.
  to_spec. rewrite (SFcompare_antisym (Prim2SF a) (Prim2SF b)).
  destruct (SFcompare (Prim2SF a) (Prim2SF b)) as [[]|]; reflexivity.
Qed.

(** Equal floats compare alike with a third one. *)
Lemma lt_eq_r (a b z : float) :
  PyFloat.eq a b = true -> PyFloat.lt z a = PyFloat.lt z b.
Proof.
  to_spec. intros E.
  destruct (SFcompare (Prim2SF a) (Prim2SF b)) as [[]|] eqn:C; try discriminate.
  now rewrite (SFcompare_Eq_r _ _ (Prim2SF z) C).
Qed.

Lemma gt_ltb (a b : float) : PyFloat.gt a b = PyFloat.lt b a.
Proof. reflexivity. Qed.

End PyFloatFacts.

(** ** Tokens and substrings *)

Module PyStrFacts.
Import PyStr.

Lemma startswith_spec (t p : str) :
  startswith t p = true <-> exists post, t = p ++ post.
Proof.
  revert t. induction p as [|a p IH]; intros t; simpl.
  - split; [intros _; exists t; reflexivity | reflexivity].
  - destruct t as [|b t].
    + split; [discriminate | intros [post E]; discriminate E].
    + rewrite andb_true_iff, N.eqb_eq, IH. split.
      * intros [-> [post ->]]. eauto.
      * intros [post E]. injection E as -> ->. eauto.
Qed.

(** [contains] decides the substring relation. *)
Lemma contains_spec (t p : str) : contains t p = true <-> substring p t.
Proof.
  unfold substring. induction t as [|b t IH].
  - simpl. rewrite orb_false_r, startswith_spec. split.
    + intros [post E]. exists [], post. exact E.
    + intros ([|x pre] & post & E); [eauto | discriminate E].
  - cbn [contains]. rewrite orb_true_iff, startswith_spec, IH. split.
    + intros [[post E] | (pre & post & E)].
      * exists [], post. exact E.
      * exists (b :: pre), post. simpl. now f_equal.
    + intros ([|x pre] & post & E).
      * left. eauto.
      * right. injection E as -> ->. eauto.
Qed.

Lemma nonspace_no_space (k : str) (c : N) :
  nonspace k -> c ∈ k -> is_space c = true -> False.
Proof.
  unfold nonspace. rewrite Forall_forall. intros Hk Hc Hs.
  rewrite (Hk c Hc) in Hs. discriminate.
Qed.

(** A prefix of a run of non-space characters that is delimited on the
    left is empty. *)
Lemma delimited_left_nonspace (pre rest : str) :
  nonspace (pre ++ rest) -> delimited_left pre -> pre = [].
Proof.
  intros Hns [E | (p & c & -> & Hc)]; [exact E | exfalso].
  apply (nonspace_no_space _ c Hns); [|exact Hc].
  rewrite !elem_of_app, list_elem_of_singleton. auto.
Qed.

Lemma delimited_right_nonspace (rest post : str) :
  nonspace (rest ++ post) -> delimited_right post -> post = [].
Proof.
  intros Hns [E | (c & p & -> & Hc)]; [exact E | exfalso].
  apply (nonspace_no_space _ c Hns); [|exact Hc].
  rewrite elem_of_app, elem_of_cons. auto.
Qed.

Lemma delimited_left_extend (pre l : str) (c : N) :
  is_space c = true -> delimited_left l -> delimited_left (pre ++ c :: l).
Proof.
  intros Hc [-> | (p & c' & -> & Hc')]; right.
  - exists pre, c. auto.
  - exists (pre ++ c :: p), c'. split; [|exact Hc'].
    now rewrite <- app_assoc.
Qed.

Lemma delimited_left_tail (pre l : str) (c : N) :
  delimited_left (pre ++ c :: l) -> delimited_left l.
Proof.
  intros [E | (p & c' & E & Hc')].
  - now destruct pre.
  - destruct l as [|x l _] using rev_ind; [now left | right].
    exists l, c'. split; [|exact Hc'].
    change (pre ++ c :: l ++ [x]) with (pre ++ (c :: l) ++ [x]) in E.
    rewrite app_assoc in E. apply app_inj_tail in E as [_ ->]. reflexivity.
Qed.

Lemma nonspace_snoc (cur : str) (c : N) :
  nonspace cur -> is_space c = false -> nonspace (cur ++ [c]).
Proof.
  intros Hcur Hc. apply Forall_app. split; [exact Hcur | repeat constructor; exact Hc].
Qed.

(** The tokens [split_from cur s] yields, [cur] being the non-space
    characters read since the last space. *)
Lemma split_from_spec (k s cur : str) :
  nonspace cur ->
  k ∈ split_from cur s <->
  k <> [] /\ nonspace k /\
  exists pre post, cur ++ s = pre ++ k ++ post /\
                   delimited_left pre /\ delimited_right post.
Proof.
  revert cur. induction s as [|c s IH]; intros cur Hcur.
  - (* end of the text: the pending token, if any *)
    rewrite app_nil_r. split.
    + intros Hk. assert (k = cur /\ cur <> []) as [-> Hne].
      { destruct cur; simpl in Hk.
        - now apply elem_of_nil in Hk.
        - apply list_elem_of_singleton in Hk. now subst. }
      repeat split; auto. exists [], []. rewrite app_nil_r.
      repeat split; now left.
    + intros (Hne & Hk & pre & post & E & Hl & Hr).
      rewrite E in Hcur.
      assert (pre = []) as -> by (eapply delimited_left_nonspace; eauto).
      assert (post = []) as ->.
      { eapply delimited_right_nonspace; [|exact Hr]. exact Hcur. }
      simpl in E. rewrite app_nil_r in E. subst cur.
      destruct k; [contradiction | simpl; apply list_elem_of_singleton; reflexivity].
  - simpl. destruct (is_space c) eqn:Hc.
    + (* a space ends the pending token *)
      specialize (IH [] (List.Forall_nil _)). simpl in IH.
      assert (k ∈ match cur with
                  | [] => split_from [] s
                  | _ :: _ => cur :: split_from [] s
                  end <-> (k = cur /\ cur <> []) \/ k ∈ split_from [] s) as ->.
      { destruct cur; [|rewrite elem_of_cons]; intuition congruence. }
      rewrite IH. clear IH. split.
      * intros [[-> Hne] | (Hne & Hk & pre & post & -> & Hl & Hr)].
        -- repeat split; auto. exists [], (c :: s).
           repeat split; [now left | right; eauto].
        -- repeat split; auto. exists (cur ++ c :: pre), post.
           repeat split; [now rewrite <- app_assoc | | exact Hr].
           now apply delimited_left_extend.
      * intros (Hne & Hk & pre & post & E & Hl & Hr).
        apply app_eq_inv in E as [(l & Ecur & E) | (l & -> & E)].
        -- (* the token starts inside [cur] *)
           subst cur.
           assert (pre = []) as -> by (eapply delimited_left_nonspace; eauto).
           simpl in *. left.
           apply app_eq_inv in E as [(l' & -> & E) | (l' & -> & E)].
           ++ destruct l' as [|x l'].
              ** rewrite app_nil_r. split; [reflexivity|].
                 rewrite app_nil_r in Hne. exact Hne.
              ** exfalso. injection E as <- ->.
                 apply (nonspace_no_space _ c Hk); [|exact Hc].
                 rewrite elem_of_app, elem_of_cons. auto.
           ++ destruct l' as [|x l'].
              ** rewrite app_nil_r. auto.
              ** exfalso. simpl in E. subst post.
                 destruct Hr as [Hr | (c' & p & Hr & Hc')]; [discriminate Hr|].
                 injection Hr as <- _.
                 apply (nonspace_no_space _ x Hcur); [|exact Hc'].
                 rewrite elem_of_app, elem_of_cons. auto.
        -- (* the token starts after [cur] *)
           destruct l as [|x l].
           ++ exfalso. simpl in E. destruct k as [|y k]; [contradiction|].
              injection E as <- _.
              apply (nonspace_no_space _ c Hk); [|exact Hc].
              apply elem_of_cons. auto.
           ++ injection E as <- ->. right. repeat split; auto.
              exists l, post. repeat split; auto.
              eapply delimited_left_tail. exact Hl.
    + (* a non-space character extends the pending token *)
      rewrite (IH (cur ++ [c])) by now apply nonspace_snoc.
      now rewrite <- app_assoc.
Qed.

(** [k in t.split()] holds exactly when [k] appears in [t] as a whole
    token. *)
Lemma in_split_spec (k t : str) : in_list k (split t) = true <-> whole_token k t.
Proof.
  unfold in_list, split, whole_token. rewrite bool_decide_eq_true.
  apply (split_from_spec k t []). constructor.
Qed.

(** Both relations are decided by the functions the router calls. *)
#[export] Instance whole_token_dec (k t : str) : Decision (whole_token k t).
Proof.
  destruct (in_list k (split t)) eqn:E; [left | right];
    rewrite <- in_split_spec; congruence.
Defined.

#[export] Instance substring_dec (p t : str) : Decision (substring p t).
Proof.
  destruct (contains t p) eqn:E; [left | right];
    rewrite <- contains_spec; congruence.
Defined.

(** A run of non-space characters followed by one more non-space
    character (a punctuation mark, say) does not hold the run as a token. *)
Lemma not_token_before_nonspace (k : str) (c : N) :
  is_space c = false -> ~ whole_token k (k ++ [c]).
Proof.
  intros Hc (Hne & Hk & pre & post & E & Hl & Hr).
  assert (nonspace (pre ++ k ++ post)) as Hns.
  { rewrite <- E. now apply nonspace_snoc. }
  assert (pre = []) as -> by (eapply delimited_left_nonspace; eauto).
  assert (post = []) as ->.
  { eapply (delimited_right_nonspace ([] ++ k)); [|exact Hr].
    now rewrite <- app_assoc. }
  simpl in E. apply app_inv_head in E. discriminate E.
Qed.

(** What surrounds an occurrence does not matter to [substring]. *)
Lemma substring_surrounded (p pre post : str) : substring p (pre ++ p ++ post).
Proof. exists pre, post. reflexivity. Qed.

End PyStrFacts.

(** ** Dictionaries *)

Module DictFacts.
Import PyStr Dict.

Lemma get_None_not_key {V} (k : str) (d : dict V) : get k d = None <-> k ∉ keys d.
Proof.
  unfold keys. induction d as [|[k' v] d IH]; simpl.
  - split; [intros _; apply not_elem_of_nil | reflexivity].
  - rewrite not_elem_of_cons. destruct (decide (k = k')); [|tauto].
    split; [discriminate | tauto].
Qed.

(** Assigning a new key appends it. *)
Lemma set_fresh {V} (k : str) (v : V) (d : dict V) :
  k ∉ keys d -> set k v d = d ++ [(k, v)].
Proof.
  unfold keys. induction d as [|[k' v'] d IH]; simpl; [reflexivity|].
  rewrite not_elem_of_cons. intros [Hne Hk].
  destruct (decide (k = k')); [contradiction|]. now rewrite IH.
Qed.

(** Building a dict from the items of a dict, one assignment per item,
    keeps the keys and their order. *)
Lemma fold_set_items {V W} (f : V -> W) (d : dict V) (acc : dict W) :
  NoDup (keys acc ++ keys d) ->
  fold_left (fun a '(k, v) => set k (f v) a) d acc
  = acc ++ List.map (fun '(k, v) => (k, f v)) d.
Proof.
  revert acc. induction d as [|[k v] d IH]; intros acc Hnd; simpl.
  - now rewrite app_nil_r.
  - assert (k ∉ keys acc) as Hk.
    { apply NoDup_app in Hnd as (_ & Hdis & _). intros Hin.
      apply (Hdis k Hin). unfold keys. simpl. apply elem_of_cons. auto. }
    rewrite set_fresh by exact Hk. rewrite IH.
    + now rewrite <- app_assoc.
    + unfold keys in *. rewrite fmap_app. simpl in *.
      now rewrite <- app_assoc.
Qed.

Lemma get_map {V W} (f : V -> W) (k : str) (d : dict V) :
  get k (List.map (fun '(k, v) => (k, f v)) d) = f <$> get k d.
Proof.
  induction d as [|[k' v] d IH]; simpl; [reflexivity|].
  destruct (decide (k = k')); [reflexivity | exact IH].
Qed.

End DictFacts.

(** ** The router *)

Module RouterFacts.
Import PyStr Dict Router PyFloatFacts PyStrFacts.

(** *** What the constructor derives from the configuration *)

Lemma init_routing (c : Cfg) :
  routing (__init__ c) = default [] (cfg_routing c ≫= cfg_emotions).
Proof. reflexivity. Qed.

(** The priority table holds the configured priority of every emotion,
    0 where none is given. *)
Lemma init_priority (c : Cfg) (emo : str) (data : EmotionCfg) :
  Dict.wf (routing (__init__ c)) ->
  Dict.get emo (routing (__init__ c)) = Some data ->
  priority_get (__init__ c) (Some emo) = default 0 (cfg_priority data).
Proof.
  intros Hwf Hget. unfold priority_get, __init__ in *. simpl in *.
  rewrite (DictFacts.fold_set_items (fun d => default 0 (cfg_priority d))) by exact Hwf.
  simpl. rewrite DictFacts.get_map, Hget. reflexivity.
Qed.

(** *** The loop of [_pick_best] *)

(** A score above 0 is above the initial [best_score] of -1. *)
Lemma positive_above_sentinel (s : float) :
  PyFloat.lt 0 s = true -> PyFloat.lt (-1) s = true.
Proof.
  to_spec.
  change (Prim2SF 0) with (S754_zero false).
  change (Prim2SF (-1)) with (S754_finite true 4503599627370496 (-52)).
  destruct (Prim2SF s) as [[]|[]| |[] m e]; simpl; congruence.
Qed.

(** An item strictly below the current best leaves it in place. *)
Lemma pick_step_below (r : EmotionRouter) (e : option str) (s : float)
    (item : str * float) :
  below s item -> pick_step r (e, s) item = (e, s).
Proof.
  destruct item as [e' s']. unfold below, pick_step. simpl. intros Hlt.
  destruct (lt_excl _ _ Hlt) as (Hgt & Heq & _).
  rewrite gt_ltb, Hgt, Heq. reflexivity.
Qed.

Lemma pick_loop_below (r : EmotionRouter) (e : option str) (s : float)
    (l : dict float) :
  Forall (below s) l -> fold_left (pick_step r) l (e, s) = (e, s).
Proof.
  induction 1 as [|item l Hitem _ IH]; cbn [fold_left]; [reflexivity|].
  now rewrite pick_step_below.
Qed.

(** While every item seen is strictly below [s], so is [best_score]. *)
Lemma pick_loop_stays_below (r : EmotionRouter) (s : float) (l : dict float)
    (acc : option str * float) :
  PyFloat.lt acc.2 s = true -> Forall (below s) l ->
  PyFloat.lt (fold_left (pick_step r) l acc).2 s = true.
Proof.
  intros Hacc Hl. revert acc Hacc.
  induction Hl as [|[e' s'] l Hitem _ IH]; intros [be bs] Hacc; simpl; [exact Hacc|].
  apply IH. unfold below in Hitem. simpl in *.
  repeat match goal with |- context [if ?b then _ else _] => destruct b end;
    simpl; assumption.
Qed.

(** An item strictly above the current best replaces it. *)
Lemma pick_step_above (r : EmotionRouter) (acc : option str * float)
    (e : str) (s : float) :
  PyFloat.lt acc.2 s = true -> pick_step r acc (e, s) = (Some e, s).
Proof.
  destruct acc as [be bs]. simpl. intros Hlt.
  unfold pick_step. now rewrite gt_ltb, Hlt.
Qed.

(** The loop up to and including an item that is strictly above all
    items before it and above -1. *)
Lemma pick_loop_reaches (r : EmotionRouter) (l1 : dict float) (e : str) (s : float) :
  PyFloat.lt (-1) s = true -> Forall (below s) l1 ->
  fold_left (pick_step r) (l1 ++ [(e, s)]) (None, (-1)%float) = (Some e, s).
Proof.
  intros Hs Hl1. rewrite fold_left_app. cbn [fold_left].
  apply pick_step_above. now apply pick_loop_stays_below.
Qed.

(** A later item with an equal positive score, under the [priority]
    tie-breaker: it replaces the current best exactly when its priority is
    strictly higher. *)
Lemma pick_step_tie (r : EmotionRouter) (a b : str) (sa sb : float) :
  PyFloat.eq sa sb = true -> PyFloat.lt 0 sa = true ->
  tie_breaker r = u "priority" ->
  pick_step r (Some a, sa) (b, sb)
  = if decide (priority_get r (Some b) > priority_get r (Some a))
    then (Some b, sb) else (Some a, sa).
Proof.
  intros Heq Hpos Htb. unfold pick_step.
  destruct (eq_excl _ _ Heq) as [Hab _].
  rewrite gt_ltb, Hab, <- eq_sym, Heq, gt_ltb.
  rewrite <- (lt_eq_r _ _ 0%float Heq), Hpos. simpl.
  destruct (decide (tie_breaker r = u "priority")); [reflexivity | contradiction].
Qed.

Lemma below_eq (sa sb : float) (l : dict float) :
  PyFloat.eq sa sb = true -> Forall (below sa) l -> Forall (below sb) l.
Proof.
  intros Heq Hl. eapply Forall_impl; [exact Hl|].
  intros [e s]. unfold below. simpl.
  now rewrite (lt_eq_r _ _ s Heq).
Qed.

(** The whole loop on two tied leaders. *)
Lemma pick_loop_tie (r : EmotionRouter) (l1 l2 l3 : dict float)
    (a b : str) (sa sb : float) :
  PyFloat.eq sa sb = true -> PyFloat.lt 0 sa = true ->
  tie_breaker r = u "priority" ->
  Forall (below sa) (l1 ++ l2 ++ l3) ->
  fold_left (pick_step r) (l1 ++ (a, sa) :: l2 ++ (b, sb) :: l3) (None, (-1)%float)
  = if decide (priority_get r (Some b) > priority_get r (Some a))
    then (Some b, sb) else (Some a, sa).
Proof.
  intros Heq Hpos Htb Hall.
  apply Forall_app in Hall as [H1 Hall]. apply Forall_app in Hall as [H2 H3].
  change (l1 ++ (a, sa) :: l2 ++ (b, sb) :: l3)
    with (l1 ++ [(a, sa)] ++ l2 ++ [(b, sb)] ++ l3).
  rewrite app_assoc, fold_left_app.
  rewrite pick_loop_reaches by auto using positive_above_sentinel.
  rewrite fold_left_app, pick_loop_below by exact H2.
  rewrite fold_left_app. cbn [fold_left app].
  rewrite pick_step_tie by assumption.
  destruct (decide _).
  - apply pick_loop_below. now apply (below_eq sa).
  - now apply pick_loop_below.
Qed.

(** *** [analyze] *)

Section AnalyzeFacts.
Context `{Unicode}.

(** With unique keys in the routing table, [scores] lists the emotions in
    the order of the configuration. *)
Lemma score_all_order (r : EmotionRouter) (t : str) :
  Dict.wf (routing r) ->
  score_all r t
  = List.map (fun '(emo, data) => (emo, emotion_score t data)) (routing r).
Proof.
  intros Hwf. unfold score_all.
  now rewrite (DictFacts.fold_set_items (emotion_score t)).
Qed.

(** Inside the cooldown window a call returns the fallback and changes
    nothing. *)
Lemma analyze_gated (r : EmotionRouter) (now : float) (text : str) :
  PyFloat.lt (now - last_trigger_ts r) (cooldown r) = true ->
  analyze r now text = (r, (fallback r, 0%float)).
Proof. intros Hgate. unfold analyze. now rewrite Hgate. Qed.

(** Outside the window, a best score that reaches the threshold is
    returned and the time of the call is recorded. *)
Lemma analyze_triggers (r : EmotionRouter) (now : float) (text : str) :
  PyFloat.lt (now - last_trigger_ts r) (cooldown r) = false ->
  PyFloat.ge (_pick_best r (score_all r (strip_accents (lower text)))).2
             (min_score r) = true ->
  analyze r now text
  = (set_last_trigger_ts r now,
     _pick_best r (score_all r (strip_accents (lower text)))).
Proof.
  intros Hgate Hge. unfold analyze. rewrite Hgate.
  destruct (_pick_best _ _) as [e s]. simpl in Hge. now rewrite Hge.
Qed.

(** Outside the window, a best score under the threshold gives the
    fallback and changes nothing. *)
Lemma analyze_below_threshold (r : EmotionRouter) (now : float) (text : str) :
  PyFloat.ge (_pick_best r (score_all r (strip_accents (lower text)))).2
             (min_score r) = false ->
  analyze r now text = (r, (fallback r, 0%float)).
Proof.
  intros Hge. unfold analyze.
  destruct (PyFloat.lt _ _); [reflexivity|].
  destruct (_pick_best _ _) as [e s]. simpl in Hge. now rewrite Hge.
Qed.

(** C1. For every router and every text, [analyze] returns a pair whose
    score is at least [min_score_to_trigger], or else the pair
    [(fallback, 0.0)]: an emotion other than the fallback never comes with
    a score under the threshold. *)
Theorem analyze_respects_threshold (r : EmotionRouter) (now : float) (text : str) :
  (PyFloat.ge (analyze r now text).2.2 (min_score r) = true
   \/ (analyze r now text).2 = (fallback r, 0%float))
  /\ ((analyze r now text).2.1 <> fallback r ->
      PyFloat.ge (analyze r now text).2.2 (min_score r) = true).
Proof.
  assert (PyFloat.ge (analyze r now text).2.2 (min_score r) = true
          \/ (analyze r now text).2 = (fallback r, 0%float)) as Hres.
  { unfold analyze.
    destruct (PyFloat.lt _ _); [now right|].
    destruct (_pick_best _ _) as [e s].
    destruct (PyFloat.ge s (min_score r)) eqn:Hge; [left; exact Hge | now right]. }
  split; [exact Hres|].
  intros Hemo. destruct Hres as [Hge | Hfb]; [exact Hge|].
  rewrite Hfb in Hemo. contradiction.
Qed.

(** C5. [analyze] writes nothing but [last_trigger_ts], and writes it only
    when it returns a winner whose score reaches the threshold: the router
    is left as it was on a return from the cooldown gate and on a return
    under the threshold; otherwise the result is the winner, its score is
    at least [min_score] and the router differs by [last_trigger_ts = now]
    alone. *)
Theorem analyze_frame (r : EmotionRouter) (now : float) (text : str) :
  let best := _pick_best r (score_all r (strip_accents (lower text))) in
  (PyFloat.lt (now - last_trigger_ts r) (cooldown r) = true ->
     analyze r now text = (r, (fallback r, 0%float)))
  /\ (PyFloat.ge best.2 (min_score r) = false ->
     analyze r now text = (r, (fallback r, 0%float)))
  /\ ((analyze r now text).1 = r
      \/ ((analyze r now text).1 = set_last_trigger_ts r now
          /\ (analyze r now text).2 = best
          /\ PyFloat.ge (analyze r now text).2.2 (min_score r) = true)).
Proof.
  intros best. split; [apply analyze_gated|].
  split; [apply analyze_below_threshold|].
  destruct (PyFloat.lt (now - last_trigger_ts r) (cooldown r)) eqn:Hgate.
  - left. now rewrite analyze_gated.
  - destruct (PyFloat.ge best.2 (min_score r)) eqn:Hge.
    + right. rewrite analyze_triggers by assumption. auto.
    + left. now rewrite analyze_below_threshold.
Qed.

(** C2, in the form the code satisfies. When a call triggers, that is,
    passes the cooldown gate with a best score of at least [min_score],
    any call made less than [cooldown] after it returns [(fallback, 0.0)]
    and leaves the router as the first call left it, whatever the two
    texts are. *)
Theorem cooldown_after_trigger (r : EmotionRouter) (now1 now2 : float)
    (text1 text2 : str) :
  PyFloat.lt (now1 - last_trigger_ts r) (cooldown r) = false ->
  PyFloat.ge (_pick_best r (score_all r (strip_accents (lower text1)))).2
             (min_score r) = true ->
  PyFloat.lt (now2 - now1) (cooldown r) = true ->
  let r1 := (analyze r now1 text1).1 in
  analyze r1 now2 text2 = (r1, (fallback r, 0%float)).
Proof.
  intros Hgate Hge Hclose. rewrite analyze_triggers by assumption. simpl.
  now rewrite analyze_gated.
Qed.

(** C4, in the form the code satisfies. The selection step [_pick_best]:
    - an emotion whose score is above -1 and strictly above every other
      score wins with that score;
    - of two emotions with equal positive scores that are strictly above
      every other score, under the [priority] tie-breaker, the one with
      the strictly higher priority wins, wherever it is declared, and with
      equal priorities the one declared first wins;
    - the winner is returned under its own name unless that name is the
      empty string, which gives the fallback;
    - the scores are listed in the order of the configuration, and the
      priority compared is the configured one, 0 where none is given. *)
Theorem pick_best_selection (r : EmotionRouter) :
  (forall l1 e s l2,
     PyFloat.lt (-1) s = true ->
     Forall (below s) (l1 ++ l2) ->
     _pick_best r (l1 ++ (e, s) :: l2) = (or_fallback r (Some e), s))
  /\ (forall l1 a sa l2 b sb l3,
        PyFloat.eq sa sb = true ->
        PyFloat.lt 0 sa = true ->
        tie_breaker r = u "priority" ->
        Forall (below sa) (l1 ++ l2 ++ l3) ->
        let scores := l1 ++ (a, sa) :: l2 ++ (b, sb) :: l3 in
        (priority_get r (Some a) > priority_get r (Some b) ->
           _pick_best r scores = (or_fallback r (Some a), sa))
        /\ (priority_get r (Some b) > priority_get r (Some a) ->
             _pick_best r scores = (or_fallback r (Some b), sb))
        /\ (priority_get r (Some a) = priority_get r (Some b) ->
             _pick_best r scores = (or_fallback r (Some a), sa)))
  /\ (forall e, e <> [] -> or_fallback r (Some e) = e)
  /\ (forall t, Dict.wf (routing r) ->
        keys (score_all r t) = keys (routing r))
  /\ (forall c emo data,
        r = __init__ c -> Dict.wf (routing r) ->
        Dict.get emo (routing r) = Some data ->
        priority_get r (Some emo) = default 0 (cfg_priority data)).
Proof.
  split; [|split; [|split; [|split]]].
  - intros l1 e s l2 Hs Hall. apply Forall_app in Hall as [H1 H2].
    unfold _pick_best.
    change (l1 ++ (e, s) :: l2) with (l1 ++ [(e, s)] ++ l2).
    rewrite app_assoc, fold_left_app, pick_loop_reaches by assumption.
    now rewrite pick_loop_below.
  - intros l1 a sa l2 b sb l3 Heq Hpos Htb Hall scores.
    unfold _pick_best, scores. rewrite pick_loop_tie by assumption.
    repeat split; intros Hp; destruct (decide _); try reflexivity; lia.
  - intros [|c e] He; [contradiction | reflexivity].
  - intros t Hwf. rewrite score_all_order by exact Hwf.
    unfold keys. clear Hwf.
    induction (routing r) as [|[k v] d IH]; simpl; [reflexivity|].
    f_equal. apply IH.
  - intros c emo data ->. apply init_priority.
Qed.

End AnalyzeFacts.

(** *** Scoring *)

Section ScoringFacts.
Context `{Unicode}.

(** The score of one emotion in the words of the specification: the
    weights of the keywords that appear as whole tokens of the text, then
    those of the phrases that appear as substrings, added up from 0.0 in
    the order of the configuration. *)
Definition spec_score (t : str) (data : EmotionCfg) : float :=
  let kws := default [] (cfg_keywords data) in
  let phs := default [] (cfg_phrases data) in
  fold_left PrimFloat.add
    ((filter (fun item => whole_token (strip_accents (lower item.1)) t) kws).*2
     ++ (filter (fun item => substring (strip_accents (lower item.1)) t) phs).*2)
    0%float.

Lemma keyword_step_spec (t : str) (score : float) (kw : str) (w : float) :
  keyword_step t score (kw, w)
  = if decide (whole_token (strip_accents (lower kw)) t)
    then (score + w)%float else score.
Proof.
  unfold keyword_step.
  destruct (decide _) as [Hin | Hin]; rewrite <- PyStrFacts.in_split_spec in Hin;
    destruct (in_list _ _); congruence.
Qed.

Lemma phrase_step_spec (t : str) (score : float) (ph : str) (w : float) :
  phrase_step t score (ph, w)
  = if decide (substring (strip_accents (lower ph)) t)
    then (score + w)%float else score.
Proof.
  unfold phrase_step.
  destruct (decide _) as [Hin | Hin]; rewrite <- PyStrFacts.contains_spec in Hin;
    destruct (contains _ _); congruence.
Qed.

(** A loop that adds the weights of the matching items adds up the
    weights of the filtered list. *)
Lemma fold_matching (P : str -> Prop) `{!forall k, Decision (P k)}
    (step : float -> str * float -> float) (l : dict float) (acc : float) :
  (forall score k w,
     step score (k, w) = if decide (P k) then (score + w)%float else score) ->
  fold_left step l acc
  = fold_left PrimFloat.add (filter (fun item => P item.1) l).*2 acc.
Proof.
  intros Hstep. revert acc.
  induction l as [|[k w] l IH]; intros acc; [reflexivity|].
  cbn [fold_left]. rewrite Hstep, IH.
  rewrite (filter_cons (fun item : str * float => P item.1)). simpl.
  destruct (decide (P k)); reflexivity.
Qed.

Lemma emotion_score_spec (t : str) (data : EmotionCfg) :
  emotion_score t data = spec_score t data.
Proof.
  unfold emotion_score, spec_score. cbv zeta. rewrite fold_left_app.
  rewrite (fold_matching (fun k => whole_token (strip_accents (lower k)) t)
             (keyword_step t) _ _ (keyword_step_spec t)).
  rewrite (fold_matching (fun k => substring (strip_accents (lower k)) t)
             (phrase_step t) _ _ (phrase_step_spec t)).
  reflexivity.
Qed.

End ScoringFacts.

(** C10. Keywords are matched against the tokens that [split()] cuts at
    white space, and only there:
    - [k in t.split()] holds exactly when [k] is a non-empty run of
      non-space characters of [t] with a space or an end of the text on
      each side;
    - so the score of an emotion adds the weight of a keyword exactly when
      its normalised form is such a token of the text, and the weight of a
      phrase exactly when its normalised form is a substring of the text;
    - a keyword directly followed by a non-space character such as a
      punctuation mark is not a token, while a substring stays one
      whatever surrounds it;
    - on the text [je suis triste!] the keyword [triste] adds nothing and
      the phrase [triste] adds its weight; with a space before the mark
      the keyword matches. *)
Theorem keywords_match_whitespace_tokens :
  (forall k t : str, in_list k (split t) = true <-> whole_token k t)
  /\ (forall (U : Unicode) (t : str) (data : EmotionCfg),
        emotion_score t data = spec_score t data)
  /\ (forall (k : str) (c : N), is_space c = false -> ~ whole_token k (k ++ [c]))
  /\ (forall p pre post : str, substring p (pre ++ p ++ post))
  /\ (let norm := @strip_accents Latin1.tables ∘ @lower Latin1.tables in
      @emotion_score Latin1.tables (norm (u "je suis triste!")) Scenario.keyword_only
        = 0%float
      /\ @emotion_score Latin1.tables (norm (u "je suis triste !")) Scenario.keyword_only
        = 1%float
      /\ @emotion_score Latin1.tables (norm (u "je suis triste!")) Scenario.phrase_only
        = 1%float).
Proof.
  split; [exact in_split_spec|].
  split; [intros U; apply emotion_score_spec|].
  split; [exact not_token_before_nonspace|].
  split; [exact substring_surrounded|].
  repeat split; vm_compute; reflexivity.
Qed.

End RouterFacts.

(** ** The scenarios of the specification *)

Module ScenarioFacts.
Import PyStr Dict Router Latin1 Scenario RouterFacts.

(** C8. A router whose only emotion is [tristesse], with keyword [triste]
    of weight 1.0, phrase [mon chat est mort] of weight 3.0 and
    [min_score_to_trigger = 1.0], called outside the cooldown window:
    [mon chat est mort] gives [("tristesse", 3.0)] and [tout va bien]
    gives [(fallback, 0.0)], whatever the other settings and the time of
    the last trigger are. *)
Theorem scenario_tristesse (tb fb : option str) (cd : option float)
    (prio : option Z) (ts now : float) :
  let r := set_last_trigger_ts (__init__ (config tb fb cd prio)) ts in
  PyFloat.lt (now - last_trigger_ts r) (cooldown r) = false ->
  (analyze r now (u "mon chat est mort")).2 = (u "tristesse", 3%float)
  /\ (analyze r now (u "tout va bien")).2 = (fallback r, 0%float).
Proof.
  intros r Hgate. split.
  - rewrite analyze_triggers; [reflexivity | exact Hgate | reflexivity].
  - rewrite analyze_below_threshold; reflexivity.
Qed.

Lemma scenario_tristesse_witness :
  let r := set_last_trigger_ts (__init__ default_config) 0 in
  PyFloat.lt (1000 - last_trigger_ts r) (cooldown r) = false
  /\ (analyze r 1000 (u "mon chat est mort")).2 = (u "tristesse", 3%float)
  /\ (analyze r 1000 (u "tout va bien")).2 = (u "idle", 0%float).
Proof.
  split; [reflexivity|].
  apply (scenario_tristesse None None None None 0 1000). reflexivity.
Defined.

(** The cooldown window opens at a call that triggers. *)
Lemma cooldown_after_trigger_witness :
  let r := __init__ default_config in
  let r1 := (analyze r 1000 (u "mon chat est mort")).1 in
  PyFloat.lt (1000 - last_trigger_ts r) (cooldown r) = false
  /\ PyFloat.lt (1000.5 - 1000) (cooldown r) = true
  /\ analyze r1 1000.5 (u "mon chat est mort") = (r1, (u "idle", 0%float)).
Proof.
  split; [reflexivity|]. split; [reflexivity|].
  apply (cooldown_after_trigger (__init__ default_config) 1000 1000.5
           (u "mon chat est mort") (u "mon chat est mort")); reflexivity.
Defined.

(** A call that does not trigger opens no window: half a second after a
    call on [tout va bien], which returns the fallback, a call on
    [mon chat est mort] returns [("tristesse", 3.0)]. *)
Lemma no_cooldown_after_untriggered_call :
  let r := __init__ default_config in
  let r1 := (analyze r 1000 (u "tout va bien")).1 in
  (analyze r 1000 (u "tout va bien")).2 = (fallback r, 0%float)
  /\ PyFloat.lt (1000.5 - 1000) (cooldown r) = true
  /\ (analyze r1 1000.5 (u "mon chat est mort")).2 = (u "tristesse", 3%float)
  /\ (analyze r1 1000.5 (u "mon chat est mort")).2 <> (fallback r, 0%float).
Proof.
  repeat split; try (vm_compute; reflexivity).
  vm_compute. discriminate.
Qed.

(** With scores of -2.0 and -3.0 the first emotion has the strictly
    highest score, yet no emotion passes the initial [best_score] of -1:
    the result is the fallback with score -1.0. And an emotion whose name
    is the empty string wins under the name of the fallback. *)
Lemma strictly_highest_below_sentinel_loses :
  let r := __init__ negative_config in
  let scores := score_all r (strip_accents (lower (u "x"))) in
  scores = [(u "a", (-2)%float); (u "b", (-3)%float)]
  /\ PyFloat.lt (-3) (-2) = true
  /\ _pick_best r scores = (u "idle", (-1)%float)
  /\ (_pick_best r scores).1 <> u "a"
  /\ _pick_best r [([], 2%float); (u "b", 1%float)] = (u "idle", 2%float).
Proof.
  repeat split; try (vm_compute; reflexivity).
  vm_compute. discriminate.
Qed.

(** Two emotions that both score 2.0 on [super]. *)
Lemma pick_best_selection_witness :
  let scores := [(u "joie", 2%float); (u "surprise", 2%float)] in
  _pick_best (__init__ (tie_config (Some 1) (Some 5))) scores = (u "surprise", 2%float)
  /\ _pick_best (__init__ (tie_config (Some 5) (Some 1))) scores = (u "joie", 2%float)
  /\ _pick_best (__init__ (tie_config (Some 3) (Some 3))) scores = (u "joie", 2%float)
  /\ _pick_best (__init__ (tie_config None None)) [(u "joie", 2%float); (u "surprise", 1%float)]
     = (u "joie", 2%float).
Proof.
  assert (forall pa pb,
            let r := __init__ (tie_config pa pb) in
            let scores := [(u "joie", 2%float); (u "surprise", 2%float)] in
            (priority_get r (Some (u "joie")) > priority_get r (Some (u "surprise")) ->
               _pick_best r scores = (or_fallback r (Some (u "joie")), 2%float))
            /\ (priority_get r (Some (u "surprise")) > priority_get r (Some (u "joie")) ->
                 _pick_best r scores = (or_fallback r (Some (u "surprise")), 2%float))
            /\ (priority_get r (Some (u "joie")) = priority_get r (Some (u "surprise")) ->
                 _pick_best r scores = (or_fallback r (Some (u "joie")), 2%float)))
    as Htie.
  { intros pa pb.
    exact (proj1 (proj2 (pick_best_selection (__init__ (tie_config pa pb))))
             [] (u "joie") 2%float [] (u "surprise") 2%float []
             eq_refl eq_refl eq_refl (List.Forall_nil _)). }
  split; [|split; [|split]].
  - apply (proj1 (proj2 (Htie (Some 1) (Some 5)))). reflexivity.
  - apply (proj1 (Htie (Some 5) (Some 1))). reflexivity.
  - apply (proj2 (proj2 (Htie (Some 3) (Some 3)))). reflexivity.
  - apply (proj1 (pick_best_selection (__init__ (tie_config None None)))
             [] (u "joie") 2%float [(u "surprise", 1%float)]);
      [reflexivity | repeat constructor].
Defined.

End ScenarioFacts.

(** ** The player *)

Module PlayerFacts.
Import PyStr Player.

Section MethodFacts.
Variable path_exists : str -> bool.

Ltac run_method :=
  cbv beta iota zeta delta
    [_play_idle _play_media media_lookup _prepare_idle trigger_emotion
     _on_media_end get_self modify print raise ret bind mbind mret M_bind M_ret
     result self printed].

(** What [_play_media] does for a name of the media map. *)
Lemma play_media_known (name : str) (lp : bool) (info : MediaInfo) (p : EmotionPlayer) :
  media_map p !! name = Some info ->
  result (_play_media path_exists name lp p) = inr tt
  /\ media_map (self (_play_media path_exists name lp p)) = media_map p
  /\ idle_name (self (_play_media path_exists name lp p)) = idle_name p
  /\ current_mode (self (_play_media path_exists name lp p)) = current_mode p.
Proof.
  intros Hin. run_method. rewrite Hin. run_method.
  destruct (path_exists (file info)), lp; run_method; auto.
Qed.

(** [_play_idle] on a player whose media map has the idle entry. *)
Lemma play_idle_known (info : MediaInfo) (p : EmotionPlayer) :
  media_map p !! idle_name p = Some info ->
  result (_play_idle path_exists p) = inr tt
  /\ media_map (self (_play_idle path_exists p)) = media_map p
  /\ idle_name (self (_play_idle path_exists p)) = idle_name p
  /\ current_mode (self (_play_idle path_exists p)) = idle_name p.
Proof.
  intros Hin. run_method.
  repeat (change (media_map (set_current_mode (idle_name p) p)) with (media_map p);
          rewrite Hin; run_method).
  destruct (path_exists (file info)); run_method; auto.
Qed.

Lemma on_media_end_idle (p : EmotionPlayer) :
  has_idle p ->
  result (_on_media_end path_exists p) = inr tt
  /\ current_mode (self (_on_media_end path_exists p)) = u "idle"
  /\ has_idle (self (_on_media_end path_exists p)).
Proof.
  intros [Hname [info Hin]].
  assert (_on_media_end path_exists p = _play_idle path_exists p) as ->.
  { unfold _on_media_end, get_self, mbind, M_bind, bind. simpl.
    destruct (decide _); now destruct (_play_idle path_exists p). }
  destruct (play_idle_known info p Hin) as (Hres & Hmap & Hidle & Hmode).
  unfold has_idle. rewrite Hmap, Hidle, Hmode, Hin. eauto.
Qed.

Lemma trigger_unknown (name : str) (p : EmotionPlayer) :
  media_map p !! name = None ->
  trigger_emotion path_exists name p = MkRun (inr tt) p [InfoUnknownEmotion name].
Proof.
  intros Hno. unfold trigger_emotion, get_self, print, mbind, M_bind, bind. simpl.
  now rewrite Hno.
Qed.

Lemma trigger_idle (p : EmotionPlayer) :
  has_idle p ->
  result (trigger_emotion path_exists (u "idle") p) = inr tt
  /\ current_mode (self (trigger_emotion path_exists (u "idle") p)) = u "idle"
  /\ has_idle (self (trigger_emotion path_exists (u "idle") p)).
Proof.
  intros [Hname [info Hin]].
  assert (trigger_emotion path_exists (u "idle") p = _play_idle path_exists p) as ->.
  { unfold trigger_emotion, get_self, mbind, M_bind, bind. simpl.
    rewrite <- Hname, Hin. destruct (decide _); [|contradiction].
    now destruct (_play_idle path_exists p). }
  destruct (play_idle_known info p Hin) as (Hres & Hmap & Hidle & Hmode).
  unfold has_idle. rewrite Hmap, Hidle, Hmode, Hin. eauto.
Qed.

Lemma trigger_known (name : str) (info : MediaInfo) (p : EmotionPlayer) :
  media_map p !! name = Some info -> name <> idle_name p ->
  result (trigger_emotion path_exists name p) = inr tt
  /\ media_map (self (trigger_emotion path_exists name p)) = media_map p
  /\ idle_name (self (trigger_emotion path_exists name p)) = idle_name p
  /\ current_mode (self (trigger_emotion path_exists name p)) = name.
Proof.
  intros Hin Hne.
  unfold trigger_emotion, get_self, modify, mbind, M_bind, bind. simpl.
  rewrite Hin. destruct (decide _); [contradiction|]. simpl.
  destruct (play_media_known name false info (set_current_mode name p) Hin)
    as (Hres & Hmap & Hidle & Hmode).
  destruct (_play_media path_exists name false (set_current_mode name p))
    as [res p' out]. simpl in *. subst. auto.
Qed.

Lemma trigger_has_idle (name : str) (p : EmotionPlayer) :
  has_idle p -> has_idle (self (trigger_emotion path_exists name p)).
Proof.
  intros Hp. destruct (media_map p !! name) as [info|] eqn:Hin.
  - destruct (decide (name = idle_name p)) as [-> | Hne].
    + destruct Hp as [Hname His]. rewrite Hname.
      apply trigger_idle. now split.
    + destruct (trigger_known name info p Hin Hne) as (_ & Hmap & Hidle & _).
      unfold has_idle. now rewrite Hmap, Hidle.
  - now rewrite trigger_unknown.
Qed.

(** Every reachable player has the idle entry. *)
Lemma reachable_has_idle (p : EmotionPlayer) :
  reachable path_exists p -> has_idle p.
Proof.
  induction 1 as [media r Hinit Hok | p name _ IH | p _ IH].
  - subst r. unfold __init__, _prepare_idle, get_self, mbind, M_bind, bind in *.
    simpl in *.
    destruct (media !! u "idle") as [info|] eqn:Hin; [|discriminate Hok].
    set (p0 := {| media_map := media; current_mode := u "idle";
                  idle_name := u "idle"; player := [] |}) in *.
    destruct (play_idle_known info p0 Hin) as (_ & Hmap & Hidle & _).
    destruct (_play_idle path_exists p0) as [res p' out]. simpl in *.
    unfold has_idle. rewrite Hmap, Hidle. simpl. rewrite Hin. eauto.
  - now apply trigger_has_idle.
  - now apply on_media_end_idle.
Qed.

(** Calling [n >= 1] times a method that, on a player with the idle entry,
    returns, keeps the entry and ends in idle mode. *)
Lemma times_idle (m : M unit) (n : nat) (p : EmotionPlayer) :
  (forall q, has_idle q ->
     result (m q) = inr tt /\ current_mode (self (m q)) = u "idle"
     /\ has_idle (self (m q))) ->
  has_idle p -> (1 <= n)%nat ->
  result (times n m p) = inr tt
  /\ current_mode (self (times n m p)) = u "idle"
  /\ has_idle (self (times n m p)).
Proof.
  intros Hm. revert p. induction n as [|n IH]; intros p Hp Hn; [lia|].
  destruct (Hm p Hp) as (Hres & Hmode & Hidle).
  cbn [times]. unfold mbind, M_bind, bind. rewrite Hres.
  destruct n as [|n'].
  - simpl. auto.
  - destruct (IH (self (m p)) Hidle ltac:(lia)) as (Hres' & Hmode' & Hidle').
    simpl. auto.
Qed.

(** C3. On a reachable player, after [trigger_emotion(X)] for an emotion
    [X] of the media map other than idle, the mode is [X], and every run of
    one or more end-of-media events returns without raising and leaves
    [current_mode] equal to [idle], also when the player is idle already. *)
Theorem media_end_returns_to_idle (p : EmotionPlayer) (X : str) (n : nat) :
  reachable path_exists p ->
  is_Some (media_map p !! X) ->
  X <> idle_name p ->
  (1 <= n)%nat ->
  let p1 := self (trigger_emotion path_exists X p) in
  current_mode p1 = X
  /\ result (times n (_on_media_end path_exists) p1) = inr tt
  /\ current_mode (self (times n (_on_media_end path_exists) p1)) = u "idle".
Proof.
  intros Hreach [info Hin] Hne Hn p1.
  destruct (trigger_known X info p Hin Hne) as (_ & _ & _ & Hmode).
  split; [exact Hmode|].
  assert (has_idle p1) as Hp1.
  { apply reachable_has_idle. now apply reach_trigger. }
  destruct (times_idle (_on_media_end path_exists) n p1 on_media_end_idle Hp1 Hn)
    as (Hres & Hmode' & _).
  auto.
Qed.

(** C6. On every player, [trigger_emotion(name)] for a name that is not a
    key of the media map prints the unknown-emotion message, returns
    without raising and leaves the player exactly as it was. *)
Theorem trigger_unknown_is_noop (p : EmotionPlayer) (name : str) :
  media_map p !! name = None ->
  result (trigger_emotion path_exists name p) = inr tt
  /\ self (trigger_emotion path_exists name p) = p
  /\ printed (trigger_emotion path_exists name p) = [InfoUnknownEmotion name].
Proof. intros Hno. now rewrite trigger_unknown. Qed.

(** C7. On every reachable player, idle or not, [n >= 1] calls of
    [trigger_emotion("idle")] in a row all return without raising and
    leave [current_mode] equal to [idle]. *)
Theorem trigger_idle_idempotent (p : EmotionPlayer) (n : nat) :
  reachable path_exists p ->
  (1 <= n)%nat ->
  result (times n (trigger_emotion path_exists (u "idle")) p) = inr tt
  /\ current_mode (self (times n (trigger_emotion path_exists (u "idle")) p))
     = u "idle".
Proof.
  intros Hreach Hn.
  destruct (times_idle (trigger_emotion path_exists (u "idle")) n p
              trigger_idle (reachable_has_idle p Hreach) Hn) as (Hres & Hmode & _).
  auto.
Qed.

End MethodFacts.

End PlayerFacts.

Module PlayerScenarioFacts.
Import PyStr Player PlayerScenario PlayerFacts.

Lemma constructed_reachable : reachable all_present (self (__init__ all_present media)).
Proof. exact (reach_init all_present media _ eq_refl eq_refl). Defined.

(** [joie] is triggered on a new player, then three end events arrive. *)
Lemma media_end_returns_to_idle_witness :
  let p := self (__init__ all_present media) in
  let p1 := self (trigger_emotion all_present (u "joie") p) in
  current_mode p1 = u "joie"
  /\ result (times 3 (_on_media_end all_present) p1) = inr tt
  /\ current_mode (self (times 3 (_on_media_end all_present) p1)) = u "idle".
Proof.
  apply (media_end_returns_to_idle all_present
           (self (__init__ all_present media)) (u "joie") 3).
  - exact constructed_reachable.
  - eexists. reflexivity.
  - discriminate.
  - lia.
Defined.

(** [colere] is not in the media map. *)
Lemma trigger_unknown_is_noop_witness :
  let p := self (__init__ all_present media) in
  media_map p !! u "colere" = None
  /\ result (trigger_emotion all_present (u "colere") p) = inr tt
  /\ self (trigger_emotion all_present (u "colere") p) = p
  /\ printed (trigger_emotion all_present (u "colere") p)
     = [InfoUnknownEmotion (u "colere")].
Proof.
  split; [reflexivity|].
  apply (trigger_unknown_is_noop all_present). reflexivity.
Defined.

(** [idle] is triggered three times while [joie] is playing. *)
Lemma trigger_idle_idempotent_witness :
  let p := self (trigger_emotion all_present (u "joie")
                   (self (__init__ all_present media))) in
  current_mode p = u "joie"
  /\ result (times 3 (trigger_emotion all_present (u "idle")) p) = inr tt
  /\ current_mode (self (times 3 (trigger_emotion all_present (u "idle")) p))
     = u "idle".
Proof.
  split; [reflexivity|].
  apply (trigger_idle_idempotent all_present); [|lia].
  apply reach_trigger. exact constructed_reachable.
Defined.

End PlayerScenarioFacts.

(** ** Concurrent callers *)

Module InterleavingFacts.
Import PyStr Dict Router Interleaving.

Section StepFacts.
Context `{Unicode}.

(** The two steps of a call, run with no other thread in between, are
    [analyze]. *)
Lemma two_steps_are_analyze (r : EmotionRouter) (now : float) (text : str) :
  step (step r (Entered now text)).1 (step r (Entered now text)).2
  = ((analyze r now text).1, Returned (analyze r now text).2).
Proof.
  unfold analyze. simpl. unfold gate_step.
  destruct (PyFloat.lt _ _); simpl; [reflexivity|].
  unfold score_step. destruct (_pick_best _ _) as [e s].
  destruct (PyFloat.ge _ _); reflexivity.
Qed.

(** A step writes nothing, or writes the [now] of the call into
    [last_trigger_ts]; the call keeps its [now] until it returns. *)
Lemma step_effect (r : EmotionRouter) (c : Call) :
  ((step r c).1 = r
   \/ exists now, call_now c = Some now /\ (step r c).1 = set_last_trigger_ts r now)
  /\ (forall now, call_now (step r c).2 = Some now -> call_now c = Some now).
Proof.
  destruct c as [now text | now text | res]; simpl.
  - split; [now left|]. unfold gate_step.
    destruct (PyFloat.lt _ _); simpl; [discriminate | auto].
  - unfold score_step. destruct (_pick_best _ _) as [e s].
    destruct (PyFloat.ge _ _); simpl; split; eauto; discriminate.
  - auto.
Qed.

Lemma inv_initial (r0 : EmotionRouter) (calls0 : list Call) :
  inv r0 calls0 (r0, calls0).
Proof. unfold inv. simpl. now destruct r0; auto. Qed.

Lemma inv_sched_step (r0 : EmotionRouter) (calls0 : list Call) (sys : System)
    (i : nat) :
  inv r0 calls0 sys -> inv r0 calls0 (sched_step sys i).
Proof.
  destruct sys as [r calls]. unfold sched_step.
  destruct (calls !! i) as [c|] eqn:Hc; [|auto].
  intros (Hr & Hts & Hnows). simpl in *.
  destruct (step_effect r c) as [Hw Hkeep].
  destruct (step r c) as [r' c'] eqn:Hstep. simpl in *.
  assert (c ∈ calls) as Hin by (apply list_elem_of_lookup; eauto).
  unfold inv. simpl. split; [|split].
  - destruct Hw as [-> | (now & _ & ->)]; [exact Hr|].
    rewrite Hr. reflexivity.
  - destruct Hw as [-> | (now & Hnow & ->)]; [exact Hts|].
    right. simpl. apply Hnows. unfold nows. apply list_elem_of_omap. eauto.
  - intros now Hnow. unfold nows in Hnow.
    apply list_elem_of_omap in Hnow as (c'' & Hc'' & Hnow).
    apply list_elem_of_lookup in Hc'' as [j Hj].
    apply list_lookup_insert_Some in Hj as [(_ & <- & _) | (_ & Hj)].
    + apply Hnows, list_elem_of_omap. eauto.
    + apply Hnows, list_elem_of_omap. exists c''. split; [|exact Hnow].
      apply list_elem_of_lookup. eauto.
Qed.

Lemma inv_run (r0 : EmotionRouter) (calls0 : list Call) (schedule : list nat)
    (sys : System) :
  inv r0 calls0 sys -> inv r0 calls0 (run schedule sys).
Proof.
  unfold run. revert sys.
  induction schedule as [|i schedule IH]; intros sys Hinv; simpl; [exact Hinv|].
  apply IH. now apply inv_sched_step.
Qed.

(** C9, in the form the code satisfies. [analyze] has no critical section: the read of
    [last_trigger_ts] at the cooldown gate and its write after scoring are
    two steps. Run back to back they are [analyze]; and under every
    schedule of any number of concurrent calls the router changes in
    [last_trigger_ts] alone, whose value is the initial one or the [now]
    of one of the calls. *)
Theorem analyze_unsynchronised :
  (forall r now text,
     step (step r (Entered now text)).1 (step r (Entered now text)).2
     = ((analyze r now text).1, Returned (analyze r now text).2))
  /\ (forall r0 calls0 schedule,
        let r := (run schedule (r0, calls0)).1 in
        r = set_last_trigger_ts r0 (last_trigger_ts r)
        /\ (last_trigger_ts r = last_trigger_ts r0
            \/ last_trigger_ts r ∈ nows calls0)).
Proof.
  split; [exact two_steps_are_analyze|].
  intros r0 calls0 schedule r.
  destruct (inv_run r0 calls0 schedule _ (inv_initial r0 calls0)) as (Hr & Hts & _).
  auto.
Qed.

End StepFacts.

Import Latin1 Scenario.

(** Two calls on [mon chat est mort] half a second apart, cooldown 2.0.
    Run one after the other, in either order, one of them triggers and the
    other returns the fallback. When the second call passes the gate
    before the first one writes, both trigger; and when the first call
    writes last, the time of the later trigger is overwritten by the
    earlier one. *)
Lemma gate_and_write_interleave :
  let r0 := __init__ default_config in
  let calls := [Entered 1000 (u "mon chat est mort");
                Entered 1000.5 (u "mon chat est mort")] in
  (run [0; 0; 1; 1]%nat (r0, calls)).2
    = [Returned (u "tristesse", 3%float); Returned (u "idle", 0%float)]
  /\ (run [1; 1; 0; 0]%nat (r0, calls)).2
    = [Returned (u "idle", 0%float); Returned (u "tristesse", 3%float)]
  /\ (run [0; 1; 0; 1]%nat (r0, calls)).2
    = [Returned (u "tristesse", 3%float); Returned (u "tristesse", 3%float)]
  /\ last_trigger_ts (run [0; 1; 0; 1]%nat (r0, calls)).1 = 1000.5%float
  /\ last_trigger_ts (run [0; 1; 1; 0]%nat (r0, calls)).1 = 1000%float.
Proof. repeat split; vm_compute; reflexivity. Qed.

End InterleavingFacts.

(* ===================================================================== *)
(** ** More configurations *)
(* ===================================================================== *)

Module MoreScenario.
Import PyStr Dict Scenario PlayerScenario.

(** Three emotions that score 2.0 on [super], with priorities 1, 5, 5. *)
Definition three_way_config : Router.Cfg :=
  let emotion prio :=
    {| Router.cfg_keywords := Some [(u "super", 2%float)];
       Router.cfg_phrases := None; Router.cfg_priority := Some prio |} in
  {| Router.cfg_routing := Some
       {| Router.cfg_strategy := None;
          Router.cfg_emotions := Some
            [(u "joie", emotion 1); (u "surprise", emotion 5);
             (u "colere", emotion 5)] |} |}.

(** The idle emotion has a keyword of its own. *)
Definition idle_keyword_config : Router.Cfg :=
  {| Router.cfg_routing := Some
       {| Router.cfg_strategy := None;
          Router.cfg_emotions := Some
            [(u "idle", {| Router.cfg_keywords := Some [(u "calme", 2%float)];
                           Router.cfg_phrases := None;
                           Router.cfg_priority := None |})] |} |}.

(** The scenario of the specification with the fallback [neutre]. *)
Definition neutral_fallback_config : Router.Cfg :=
  config None (Some (u "neutre")) None None.

(** A media map whose flags say the opposite of what is played: the idle
    clip is not to loop and [joie] is; only the idle file exists. *)
Definition contrary_media : gmap str Player.MediaInfo :=
  list_to_map
    [(u "idle", {| Player.file := u "/videos/idle.mp4"; Player.loop := false;
                   Player.description := [] |});
     (u "joie", {| Player.file := u "/videos/joie.mp4"; Player.loop := true;
                   Player.description := u "content" |})].

Definition only_idle_present (path : str) : bool :=
  bool_decide (path = u "/videos/idle.mp4").

(** A media map with an emotion called [list]. *)
Definition media_with_list : gmap str Player.MediaInfo :=
  list_to_map
    [(u "idle", {| Player.file := u "/videos/idle.mp4"; Player.loop := true;
                   Player.description := [] |});
     (u "list", {| Player.file := u "/videos/list.mp4"; Player.loop := false;
                   Player.description := [] |});
     (u "joie", {| Player.file := u "/videos/joie.mp4"; Player.loop := false;
                   Player.description := [] |})].

(** Stand-ins for [os.path] on paths written with [/]. *)
Definition posix_isabs (path : str) : bool := startswith path (u "/").
Definition posix_abspath (path : str) : str := path.
Definition posix_join (a b : str) : str := a ++ u "/" ++ b.

(** A configuration file of the player, and the same with [null] as the
    file of [joie]. *)
Definition player_json (joie_file : PlayerConfig.Json) : dict PlayerConfig.Json :=
  [(u "emotions",
    PlayerConfig.JObject
      [(u "idle", PlayerConfig.JObject
                    [(u "file", PlayerConfig.JString (u "idle.mp4"));
                     (u "loop", PlayerConfig.JBool true)]);
       (u "joie", PlayerConfig.JObject [(u "file", joie_file)])])].

(** An orchestrator over the scenario's router and a new player. *)
Definition scenario_core (c : Router.Cfg) : Master.NestorCore :=
  {| Master.router := Some (Router.__init__ c);
     Master.player := Player.self (Player.__init__ all_present media);
     Master.print_logs := true |}.

End MoreScenario.

(* ===================================================================== *)
(** * Further properties *)
(* ===================================================================== *)

(** ** More on the comparison of floats *)

Module PyFloatOrder.
Import PyFloatFacts.

(** The comparison of two finite floats of the same sign, on exponent
    and mantissa. *)
Definition cmp_fin (e1 : Z) (m1 : positive) (e2 : Z) (m2 : positive) : comparison :=
  match Z.compare e1 e2 with
  | Lt => Lt
  | Gt => Gt
  | Eq => Pos.compare_cont Eq m1 m2
  end.

Lemma cmp_fin_Lt e1 m1 e2 m2 :
  cmp_fin e1 m1 e2 m2 = Lt <-> (e1 < e2 \/ (e1 = e2 /\ (m1 < m2)%positive))%Z.
Proof.
  unfold cmp_fin. change (Pos.compare_cont Eq m1 m2) with (m1 ?= m2)%positive.
  destruct (Z.compare_spec e1 e2); [rewrite Pos.compare_lt_iff| |]; split;
    try discriminate; try lia; auto.
Qed.

Lemma cmp_fin_Gt e1 m1 e2 m2 :
  cmp_fin e1 m1 e2 m2 = Gt <-> (e2 < e1 \/ (e1 = e2 /\ (m2 < m1)%positive))%Z.
Proof.
  unfold cmp_fin. change (Pos.compare_cont Eq m1 m2) with (m1 ?= m2)%positive.
  destruct (Z.compare_spec e1 e2); [rewrite Pos.compare_gt_iff| |]; split;
    try discriminate; try lia; auto.
Qed.

Lemma CompOpp_Lt (c : comparison) : CompOpp c = Lt <-> c = Gt.
Proof. destruct c; simpl; split; congruence. Qed.

Lemma neg_cmp e1 m1 e2 m2 :
  match (e1 ?= e2)%Z with
  | Lt => Gt
  | Gt => Lt
  | Eq => CompOpp (Pos.compare_cont Eq m1 m2)
  end = CompOpp (cmp_fin e1 m1 e2 m2).
Proof. unfold cmp_fin. destruct (e1 ?= e2)%Z; reflexivity. Qed.

Lemma SFcompare_Lt_trans (x y z : spec_float) :
  SFcompare x y = Some Lt -> SFcompare y z = Some Lt -> SFcompare x z = Some Lt.
Proof.
  destruct x as [[]|[]| |[] mx ex], y as [[]|[]| |[] my ey], z as [[]|[]| |[] mz ez];
    simpl; try discriminate; try reflexivity.
  - rewrite !neg_cmp.
    intros H1 H2. injection H1 as H1. injection H2 as H2. f_equal.
    rewrite CompOpp_Lt, cmp_fin_Gt in *. lia.
  - fold (cmp_fin ex mx ey my) (cmp_fin ey my ez mz) (cmp_fin ex mx ez mz).
    intros H1 H2. injection H1 as H1. injection H2 as H2. f_equal.
    rewrite cmp_fin_Lt in *. lia.
Qed.

Lemma lt_trans (a b c : float) :
  PyFloat.lt a b = true -> PyFloat.lt b c = true -> PyFloat.lt a c = true.
Proof.
  to_spec.
  destruct (SFcompare (Prim2SF a) (Prim2SF b)) as [[]|] eqn:Hab; try discriminate.
  destruct (SFcompare (Prim2SF b) (Prim2SF c)) as [[]|] eqn:Hbc; try discriminate.
  now rewrite (SFcompare_Lt_trans _ _ _ Hab Hbc).
Qed.

Lemma lt_irrefl (a : float) : PyFloat.lt a a = false.
Proof.
  destruct (PyFloat.lt a a) eqn:E; [|reflexivity].
  destruct (lt_excl _ _ E) as [E' _]. congruence.
Qed.

(** Equal floats compare alike with a third one, on either side. *)
Lemma eq_eq_r (a b z : float) :
  PyFloat.eq a b = true -> PyFloat.eq z a = PyFloat.eq z b.
Proof.
  to_spec. intros E.
  destruct (SFcompare (Prim2SF a) (Prim2SF b)) as [[]|] eqn:C; try discriminate.
  now rewrite (SFcompare_Eq_r _ _ (Prim2SF z) C).
Qed.

Lemma lt_eq_l (a b z : float) :
  PyFloat.eq a b = true -> PyFloat.lt a z = PyFloat.lt b z.
Proof.
  to_spec. intros E.
  destruct (SFcompare (Prim2SF a) (Prim2SF b)) as [[]|] eqn:C; try discriminate.
  rewrite (SFcompare_antisym (Prim2SF z) (Prim2SF a)).
  rewrite (SFcompare_antisym (Prim2SF z) (Prim2SF b)).
  now rewrite (SFcompare_Eq_r _ _ (Prim2SF z) C).
Qed.

(** A threshold that -1.0 reaches is reached by 0.0 as well. *)
Lemma ge_sentinel_ge_zero (m : float) :
  PyFloat.ge (-1) m = true -> PyFloat.ge 0 m = true.
Proof.
  to_spec.
  change (Prim2SF 0) with (S754_zero false).
  change (Prim2SF (-1)) with (S754_finite true 4503599627370496 (-52)).
  destruct (Prim2SF m) as [[]|[]| |[] mm e]; cbv beta iota delta [SFcompare];
    congruence.
Qed.

End PyFloatOrder.

(** ** More on the router *)

Module RouterMoreFacts.
Import PyStr Dict Router PyFloatFacts PyFloatOrder PyStrFacts RouterFacts.

(** *** The loop of [_pick_best], in general *)

(** What the loop keeps: nothing seen is strictly above [best_score], and
    [best_score] is the initial -1 or the score of the emotion held,
    which is above -1. *)
Definition pick_inv (seen : dict float) (acc : option str * float) : Prop :=
  Forall (fun it => PyFloat.lt acc.2 it.2 = false) seen
  /\ (acc = (None, (-1)%float)
      \/ exists e, acc.1 = Some e /\ (e, acc.2) ∈ seen
                   /\ PyFloat.lt (-1) acc.2 = true).

Lemma pick_inv_step (r : EmotionRouter) (seen : dict float)
    (acc : option str * float) (item : str * float) :
  pick_inv seen acc -> pick_inv (seen ++ [item]) (pick_step r acc item).
Proof.
  destruct acc as [be bs], item as [emo s]. intros [Hmax Hheld].
  assert (PyFloat.lt (-1) bs = true \/ bs = (-1)%float) as Hbs.
  { destruct Hheld as [E | (e & _ & _ & Hlt)]; [right; congruence | left; exact Hlt]. }
  assert (forall s', PyFloat.lt bs s' = true -> PyFloat.lt (-1) s' = true) as Habove.
  { intros s' Hs'. destruct Hbs as [Hlt | ->]; [|exact Hs'].
    exact (lt_trans _ _ _ Hlt Hs'). }
  unfold pick_step. rewrite gt_ltb.
  destruct (PyFloat.lt bs s) eqn:Hgt.
  - (* strictly above: replaced *)
    split.
    + apply Forall_app. split.
      * eapply Forall_impl; [exact Hmax|]. intros [e' s'] Hns. simpl in *.
        destruct (PyFloat.lt s s') eqn:Hss'; [|reflexivity].
        rewrite (lt_trans _ _ _ Hgt Hss') in Hns. discriminate.
      * repeat constructor. simpl. apply lt_irrefl.
    + right. exists emo. simpl. rewrite elem_of_app, list_elem_of_singleton. auto.
  - destruct (PyFloat.eq s bs && PyFloat.gt s 0) eqn:Htie;
      [destruct (decide _) as [Htb | Htb]; [destruct (decide _) as [Hpr | Hpr]|]|].
    + (* tie won on priority: replaced *)
      apply andb_prop in Htie as [Heq Hpos]. rewrite gt_ltb in Hpos.
      split.
      * apply Forall_app. split.
        -- eapply Forall_impl; [exact Hmax|]. intros [e' s'] Hns. simpl in *.
           now rewrite (lt_eq_l _ _ s' Heq).
        -- repeat constructor. simpl. apply lt_irrefl.
      * right. exists emo. simpl. rewrite elem_of_app, list_elem_of_singleton.
        split; [reflexivity|]. split; [auto|].
        now apply positive_above_sentinel.
    + (* kept *)
      split.
      * apply Forall_app. split; [exact Hmax | repeat constructor; exact Hgt].
      * destruct Hheld as [E | (held & He & Hin & Hlt)]; [now left | right].
        exists held. rewrite elem_of_app. auto.
    + split.
      * apply Forall_app. split; [exact Hmax | repeat constructor; exact Hgt].
      * destruct Hheld as [E | (held & He & Hin & Hlt)]; [now left | right].
        exists held. rewrite elem_of_app. auto.
    + split.
      * apply Forall_app. split; [exact Hmax | repeat constructor; exact Hgt].
      * destruct Hheld as [E | (held & He & Hin & Hlt)]; [now left | right].
        exists held. rewrite elem_of_app. auto.
Qed.

Lemma pick_inv_loop (r : EmotionRouter) (l seen : dict float)
    (acc : option str * float) :
  pick_inv seen acc -> pick_inv (seen ++ l) (fold_left (pick_step r) l acc).
Proof.
  revert seen acc. induction l as [|item l IH]; intros seen acc Hinv.
  - now rewrite app_nil_r.
  - cbn [fold_left]. change (item :: l) with ([item] ++ l). rewrite app_assoc.
    apply IH. now apply pick_inv_step.
Qed.

(** [_pick_best] returns a maximal score: no score of the dict is strictly
    above the one returned; and the pair returned is the fallback with the
    initial -1.0, or an emotion of the dict, under its name or under the
    fallback's if its name is empty, with its own score, which is above
    -1.0. *)
Theorem pick_best_maximal (r : EmotionRouter) (scores : dict float) :
  Forall (fun it => PyFloat.lt (_pick_best r scores).2 it.2 = false) scores
  /\ (_pick_best r scores = (fallback r, (-1)%float)
      \/ exists e, (e, (_pick_best r scores).2) ∈ scores
                   /\ (_pick_best r scores).1 = or_fallback r (Some e)
                   /\ PyFloat.lt (-1) (_pick_best r scores).2 = true).
Proof.
  assert (pick_inv ([] ++ scores)
            (fold_left (pick_step r) scores (None, (-1)%float))) as [Hmax Hheld].
  { apply pick_inv_loop. split; [constructor | now left]. }
  unfold _pick_best.
  destruct (fold_left (pick_step r) scores (None, (-1)%float)) as [be bs].
  simpl in *. split; [exact Hmax|].
  destruct Hheld as [E | (e & -> & Hin & Hlt)].
  - left. injection E as -> ->. reflexivity.
  - right. exists e. auto.
Qed.

(** An item with an equal score leaves the current best in place unless
    the [priority] tie-breaker applies to a positive score and the item
    has the strictly higher priority. *)
Lemma pick_step_tie_kept (r : EmotionRouter) (e : option str) (s : float)
    (item : str * float) :
  PyFloat.eq item.2 s = true ->
  tie_breaker r <> u "priority" \/ PyFloat.lt 0 s = false
  \/ priority_get r (Some item.1) <= priority_get r e ->
  pick_step r (e, s) item = (e, s).
Proof.
  destruct item as [e' s']. simpl. intros Heq Hwhy. unfold pick_step.
  destruct (eq_excl _ _ Heq) as [_ Hgt].
  rewrite gt_ltb, Hgt, Heq, gt_ltb, (lt_eq_r _ _ 0%float Heq). simpl.
  destruct (PyFloat.lt 0 s) eqn:Hpos; [|reflexivity].
  destruct (decide _); [|reflexivity].
  destruct (decide _); [|reflexivity].
  destruct Hwhy as [? | [? | ?]]; [contradiction | discriminate | lia].
Qed.

(** With any other tie-break policy than [priority], or
    when the tied score is not positive, the emotion declared first among
    the leaders wins, whatever the priorities are. *)
Theorem first_declared_wins_without_priority (r : EmotionRouter)
    (l1 l2 : dict float) (a : str) (sa : float) :
  PyFloat.lt (-1) sa = true ->
  Forall (below sa) l1 ->
  Forall (fun it => below sa it \/ PyFloat.eq it.2 sa = true) l2 ->
  tie_breaker r <> u "priority" \/ PyFloat.lt 0 sa = false ->
  _pick_best r (l1 ++ (a, sa) :: l2) = (or_fallback r (Some a), sa).
Proof.
  intros Hsa H1 H2 Hwhy. unfold _pick_best.
  change (l1 ++ (a, sa) :: l2) with (l1 ++ [(a, sa)] ++ l2).
  rewrite app_assoc, fold_left_app, pick_loop_reaches by assumption.
  assert (fold_left (pick_step r) l2 (Some a, sa) = (Some a, sa)) as ->; [|reflexivity].
  induction H2 as [|it l2 Hit _ IH]; [reflexivity|].
  cbn [fold_left]. destruct Hit as [Hlow | Heq].
  - now rewrite pick_step_below.
  - rewrite pick_step_tie_kept; [exact IH | exact Heq | tauto].
Qed.

(** What an item before the winner must be: strictly below, or tied with
    a strictly lower priority; and after the winner: strictly below, or
    tied with a priority that is not higher. *)
Definition loses_before (r : EmotionRouter) (e : str) (se : float)
    (it : str * float) : Prop :=
  below se it
  \/ (PyFloat.eq it.2 se = true
      /\ priority_get r (Some it.1) < priority_get r (Some e)).

Definition loses_after (r : EmotionRouter) (e : str) (se : float)
    (it : str * float) : Prop :=
  below se it
  \/ (PyFloat.eq it.2 se = true
      /\ priority_get r (Some it.1) <= priority_get r (Some e)).

Lemma pick_loop_before (r : EmotionRouter) (e : str) (se : float)
    (l : dict float) (acc : option str * float) :
  PyFloat.lt acc.2 se = true
  \/ (PyFloat.eq acc.2 se = true /\ priority_get r acc.1 < priority_get r (Some e)) ->
  Forall (loses_before r e se) l ->
  let acc' := fold_left (pick_step r) l acc in
  PyFloat.lt acc'.2 se = true
  \/ (PyFloat.eq acc'.2 se = true /\ priority_get r acc'.1 < priority_get r (Some e)).
Proof.
  intros Hacc Hl. revert acc Hacc.
  induction Hl as [|[e' s'] l Hit _ IH]; intros [be bs] Hacc; [exact Hacc|].
  cbn [fold_left]. apply IH. unfold loses_before, below in Hit. simpl in *.
  unfold pick_step.
  repeat match goal with |- context [if ?b then _ else _] => destruct b end;
    simpl; tauto.
Qed.

(** With the [priority] tie-breaker, among any number of emotions tied on
    a positive best score, the winner is the first one of the highest
    priority. *)
Theorem highest_priority_wins_among_tied (r : EmotionRouter)
    (l1 l2 : dict float) (e : str) (se : float) :
  tie_breaker r = u "priority" ->
  PyFloat.lt 0 se = true ->
  Forall (loses_before r e se) l1 ->
  Forall (loses_after r e se) l2 ->
  _pick_best r (l1 ++ (e, se) :: l2) = (or_fallback r (Some e), se).
Proof.
  intros Htb Hpos H1 H2. unfold _pick_best.
  rewrite fold_left_app. cbn [fold_left].
  pose proof (pick_loop_before r e se l1 (None, (-1)%float)
                (or_introl (positive_above_sentinel se Hpos)) H1) as Hacc.
  destruct (fold_left (pick_step r) l1 (None, (-1)%float)) as [be bs]. simpl in Hacc.
  assert (pick_step r (be, bs) (e, se) = (Some e, se)) as ->.
  { destruct Hacc as [Hlt | [Heq Hprio]].
    - now apply pick_step_above.
    - unfold pick_step. destruct (eq_excl _ _ Heq) as [Hgt _].
      rewrite gt_ltb, Hgt, <- eq_sym, Heq, gt_ltb, Hpos. simpl.
      destruct (decide _); [|contradiction].
      destruct (decide _); [reflexivity | lia]. }
  assert (fold_left (pick_step r) l2 (Some e, se) = (Some e, se)) as ->; [|reflexivity].
  induction H2 as [|it l2 Hit _ IH]; [reflexivity|].
  cbn [fold_left]. destruct Hit as [Hlow | [Heq Hprio]].
  - now rewrite pick_step_below.
  - rewrite pick_step_tie_kept; [exact IH | exact Heq | tauto].
Qed.

(** *** Texts that match nothing *)

Section NoMatch.
Context `{Unicode}.

(** No keyword of [data] is a token of [t] and no phrase a substring. *)
Definition matches_nothing (t : str) (data : EmotionCfg) : Prop :=
  Forall (fun item => ~ whole_token (strip_accents (lower item.1)) t)
         (default [] (cfg_keywords data))
  /\ Forall (fun item => ~ substring (strip_accents (lower item.1)) t)
            (default [] (cfg_phrases data)).

Lemma keyword_loop_no_match (t : str) (kws : dict float) (score : float) :
  Forall (fun item => ~ whole_token (strip_accents (lower item.1)) t) kws ->
  fold_left (keyword_step t) kws score = score.
Proof.
  induction 1 as [|[kw w] kws Hno _ IH]; [reflexivity|].
  cbn [fold_left]. rewrite keyword_step_spec.
  destruct (decide _); [contradiction | exact IH].
Qed.

Lemma phrase_loop_no_match (t : str) (phs : dict float) (score : float) :
  Forall (fun item => ~ substring (strip_accents (lower item.1)) t) phs ->
  fold_left (phrase_step t) phs score = score.
Proof.
  induction 1 as [|[ph w] phs Hno _ IH]; [reflexivity|].
  cbn [fold_left]. rewrite phrase_step_spec.
  destruct (decide _); [contradiction | exact IH].
Qed.

Lemma emotion_score_no_match (t : str) (data : EmotionCfg) :
  matches_nothing t data -> emotion_score t data = 0%float.
Proof.
  intros [Hkw Hph]. unfold emotion_score. cbv zeta.
  now rewrite keyword_loop_no_match, phrase_loop_no_match.
Qed.

Lemma set_all_zero (k : str) (d : dict float) :
  Forall (fun it => it.2 = 0%float) d ->
  Forall (fun it => it.2 = 0%float) (Dict.set k 0%float d).
Proof.
  induction 1 as [|[k' v] d Hv Hd IH]; simpl.
  - repeat constructor.
  - destruct (decide (k = k')); constructor; auto.
Qed.

Lemma score_loop_no_match (t : str) (items : dict EmotionCfg) (scores : dict float) :
  Forall (fun item => matches_nothing t item.2) items ->
  Forall (fun it => it.2 = 0%float) scores ->
  Forall (fun it => it.2 = 0%float)
    (fold_left (fun scores '(emo, data) => Dict.set emo (emotion_score t data) scores)
       items scores).
Proof.
  intros Hno. revert scores.
  induction Hno as [|[emo data] items Hdata _ IH]; intros scores Hz; [exact Hz|].
  cbn [fold_left]. apply IH. rewrite emotion_score_no_match by exact Hdata.
  now apply set_all_zero.
Qed.

Lemma score_all_no_match (r : EmotionRouter) (t : str) :
  Forall (fun item => matches_nothing t item.2) (routing r) ->
  Forall (fun it => it.2 = 0%float) (score_all r t).
Proof. intros Hno. apply score_loop_no_match; [exact Hno | constructor]. Qed.

(** On scores that are all 0.0 the loop ends with -1.0 or 0.0. *)
Lemma pick_loop_all_zero (r : EmotionRouter) (l : dict float)
    (acc : option str * float) :
  acc.2 = (-1)%float \/ acc.2 = 0%float ->
  Forall (fun it => it.2 = 0%float) l ->
  (fold_left (pick_step r) l acc).2 = (-1)%float
  \/ (fold_left (pick_step r) l acc).2 = 0%float.
Proof.
  intros Hacc Hl. revert acc Hacc.
  induction Hl as [|[e s] l Hs _ IH]; intros [be bs] Hacc; [exact Hacc|].
  cbn [fold_left]. apply IH. simpl in *. subst s.
  destruct Hacc as [-> | ->]; [right | right]; reflexivity.
Qed.

(** When no keyword and no phrase of any emotion matches the text (the
    empty text, say) and [min_score_to_trigger] is above 0, [analyze]
    returns [(fallback, 0.0)] at any time and leaves the router as it
    was: no cooldown window opens. *)
Theorem no_match_gives_fallback (r : EmotionRouter) (now : float) (text : str) :
  Forall (fun item => matches_nothing (strip_accents (lower text)) item.2)
         (routing r) ->
  PyFloat.ge 0 (min_score r) = false ->
  analyze r now text = (r, (fallback r, 0%float)).
Proof.
  intros Hno Hmin. apply analyze_below_threshold.
  unfold _pick_best.
  destruct (pick_loop_all_zero r (score_all r (strip_accents (lower text)))
              (None, (-1)%float) (or_introl eq_refl)
              (score_all_no_match r _ Hno)) as [Hs | Hs];
    destruct (fold_left _ _ _) as [be bs]; simpl in *; subst bs.
  - destruct (PyFloat.ge (-1) (min_score r)) eqn:Hge; [|reflexivity].
    apply ge_sentinel_ge_zero in Hge. congruence.
  - exact Hmin.
Qed.

(** A keyword whose normalised form is empty or holds a white-space
    character (a keyword of several words) never adds its weight, whatever
    the text; a phrase whose normalised form is empty adds its weight on
    every text. *)
Theorem degenerate_keywords_and_phrases (t : str) (score : float) (k : str)
    (w : float) :
  (strip_accents (lower k) = []
   \/ (exists c, c ∈ strip_accents (lower k) /\ is_space c = true) ->
   keyword_step t score (k, w) = score)
  /\ (strip_accents (lower k) = [] ->
      phrase_step t score (k, w) = (score + w)%float).
Proof.
  split.
  - intros Hdeg. rewrite keyword_step_spec.
    destruct (decide _) as [(Hne & Hns & _) | _]; [exfalso | reflexivity].
    destruct Hdeg as [Hempty | (c & Hc & Hsp)]; [contradiction|].
    exact (nonspace_no_space _ c Hns Hc Hsp).
  - intros Hempty. rewrite phrase_step_spec, Hempty.
    destruct (decide _) as [_ | Hno]; [reflexivity | exfalso].
    apply Hno. exists [], t. reflexivity.
Qed.

(** A router built from a configuration without a ["routing"] section has
    no emotion and the default threshold 1.0: it answers [("idle", 0.0)]
    to every text at every time and never changes. *)
Theorem unconfigured_router_is_silent (c : Cfg) (now : float) (text : str) :
  cfg_routing c = None ->
  analyze (__init__ c) now text = (__init__ c, (u "idle", 0%float)).
Proof.
  intros Hnone.
  assert (routing (__init__ c) = []) as Hrouting by (unfold __init__; now rewrite Hnone).
  assert (min_score (__init__ c) = 1%float) as Hmin by (unfold __init__; now rewrite Hnone).
  assert (fallback (__init__ c) = u "idle") as Hfb by (unfold __init__; now rewrite Hnone).
  rewrite analyze_below_threshold; [now rewrite Hfb|].
  unfold score_all, _pick_best. rewrite Hrouting, Hmin. reflexivity.
Qed.

End NoMatch.

End RouterMoreFacts.

(** ** More on the player *)

Module PlayerMoreFacts.
Import PyStr Player PlayerFacts.

Section Operations.
Variable path_exists : str -> bool.

Ltac run_player :=
  cbv beta iota zeta delta
    [_play_idle _play_media media_lookup _prepare_idle trigger_emotion
     _on_media_end get_self modify print raise ret bind mbind mret M_bind M_ret
     result self printed].

(** Both branches of [_on_media_end] are [_play_idle]. *)
Lemma on_media_end_is_play_idle (p : EmotionPlayer) :
  _on_media_end path_exists p = _play_idle path_exists p.
Proof.
  unfold _on_media_end, get_self, mbind, M_bind, bind.
  cbv beta iota zeta delta [result self printed].
  destruct (decide _); now destruct (_play_idle path_exists p).
Qed.

(** The mode is a key of the media map. *)
Definition mode_known (p : EmotionPlayer) : Prop :=
  is_Some (media_map p !! current_mode p).

Lemma trigger_keeps (name : str) (p : EmotionPlayer) :
  has_idle p -> mode_known p ->
  result (trigger_emotion path_exists name p) = inr tt
  /\ media_map (self (trigger_emotion path_exists name p)) = media_map p
  /\ mode_known (self (trigger_emotion path_exists name p)).
Proof.
  intros Hidle Hmode. destruct (media_map p !! name) as [info|] eqn:Hin.
  - destruct (decide (name = idle_name p)) as [-> | Hne].
    + destruct Hidle as [Hname [idle Hidle]].
      assert (trigger_emotion path_exists (idle_name p) p = _play_idle path_exists p) as ->.
      { unfold trigger_emotion, get_self, mbind, M_bind, bind.
        cbv beta iota zeta delta [result self printed].
        rewrite Hin. destruct (decide _); [|contradiction].
        now destruct (_play_idle path_exists p). }
      destruct (play_idle_known path_exists info p Hin) as (Hres & Hmap & Hid & Hcur).
      unfold mode_known. rewrite Hmap, Hcur, Hin. eauto.
    + destruct (trigger_known path_exists name info p Hin Hne) as (Hres & Hmap & _ & Hcur).
      unfold mode_known. rewrite Hmap, Hcur, Hin. eauto.
  - rewrite trigger_unknown by exact Hin. auto.
Qed.

Lemma media_end_keeps (p : EmotionPlayer) :
  has_idle p ->
  result (_on_media_end path_exists p) = inr tt
  /\ media_map (self (_on_media_end path_exists p)) = media_map p
  /\ mode_known (self (_on_media_end path_exists p)).
Proof.
  intros [Hname [info Hin]]. rewrite on_media_end_is_play_idle.
  destruct (play_idle_known path_exists info p Hin) as (Hres & Hmap & Hid & Hcur).
  unfold mode_known. rewrite Hmap, Hcur, Hin. eauto.
Qed.

Lemma reachable_mode_known (p : EmotionPlayer) :
  reachable path_exists p -> mode_known p.
Proof.
  induction 1 as [media r Hinit Hok | p name Hp IH | p Hp IH].
  - subst r. unfold __init__, _prepare_idle, get_self, mbind, M_bind, bind in *.
    cbv beta iota zeta delta [result self printed] in *.
    set (p0 := {| media_map := media; current_mode := u "idle";
                  idle_name := u "idle"; player := [] |}) in *.
    change (media_map p0) with media in *.
    change (idle_name p0) with (u "idle") in *.
    destruct (media !! u "idle") as [info|] eqn:Hin; [|discriminate Hok].
    destruct (play_idle_known path_exists info p0 Hin) as (_ & Hmap & _ & Hcur).
    destruct (_play_idle path_exists p0) as [res p' out].
    cbv beta iota zeta delta [result self printed] in *.
    unfold mode_known. rewrite Hmap, Hcur. simpl. rewrite Hin. eauto.
  - apply trigger_keeps; [now apply (reachable_has_idle path_exists) | exact IH].
  - apply media_end_keeps. now apply (reachable_has_idle path_exists).
Qed.

(** On a reachable player [current_mode] is a key of the media map, and
    neither [trigger_emotion], for any name at all, nor the end-of-media
    callback raises or changes the media map and the name of the idle
    entry. *)
Theorem player_operations_are_safe (p : EmotionPlayer) (name : str) :
  reachable path_exists p ->
  is_Some (media_map p !! current_mode p)
  /\ result (trigger_emotion path_exists name p) = inr tt
  /\ media_map (self (trigger_emotion path_exists name p)) = media_map p
  /\ result (_on_media_end path_exists p) = inr tt
  /\ media_map (self (_on_media_end path_exists p)) = media_map p.
Proof.
  intros Hreach.
  pose proof (reachable_has_idle path_exists p Hreach) as Hidle.
  pose proof (reachable_mode_known p Hreach) as Hmode.
  destruct (trigger_keeps name p Hidle Hmode) as (Ht & Htm & _).
  destruct (media_end_keeps p Hidle) as (He & Hem & _).
  auto.
Qed.

(** [trigger_emotion] for a key of the media map returns and sets the
    mode. *)
Lemma trigger_of_key (p : EmotionPlayer) (name : str) (info : MediaInfo) :
  media_map p !! name = Some info ->
  result (trigger_emotion path_exists name p) = inr tt
  /\ current_mode (self (trigger_emotion path_exists name p)) = name.
Proof.
  intros Hin. destruct (decide (name = idle_name p)) as [-> | Hne].
  - assert (trigger_emotion path_exists (idle_name p) p = _play_idle path_exists p) as ->.
    { unfold trigger_emotion, get_self, mbind, M_bind, bind.
      cbv beta iota zeta delta [result self printed].
      rewrite Hin. destruct (decide _); [|contradiction].
      now destruct (_play_idle path_exists p). }
    now destruct (play_idle_known path_exists info p Hin) as (? & _ & _ & ?).
  - now destruct (trigger_known path_exists name info p Hin Hne) as (? & _ & _ & ?).
Qed.

(** The [loop] flag of the configuration is never consulted: an emotion
    other than idle is played once ([set_media], [play]) and the idle
    clip is played with the repeat option, whatever their flags say. A
    missing file changes nothing to the calls and to the mode; it adds
    one warning. *)
Theorem playback_ignores_loop_flag (p : EmotionPlayer) (name : str)
    (info : MediaInfo) :
  media_map p !! name = Some info ->
  let r := trigger_emotion path_exists name p in
  result r = inr tt
  /\ current_mode (self r) = name
  /\ player (self r)
     = player p ++ (if decide (name = idle_name p)
                    then [SetMedia (file info); AddOption (u "input-repeat=-1"); Play]
                    else [SetMedia (file info); Play])
  /\ printed r = if path_exists (file info) then []
                 else [WarnMissingFile name (file info)].
Proof.
  intros Hin. run_player. rewrite Hin.
  destruct (decide (name = idle_name p)) as [-> | Hne]; run_player.
  - repeat (change (media_map (set_current_mode (idle_name p) p)) with (media_map p);
            rewrite Hin; run_player).
    destruct (path_exists (file info)); run_player;
      unfold vlc_call, set_current_mode; cbn [player current_mode];
      rewrite <- ?app_assoc; auto.
  - repeat (change (media_map (set_current_mode name p)) with (media_map p);
            rewrite Hin; run_player).
    destruct (path_exists (file info)); run_player;
      unfold vlc_call, set_current_mode; cbn [player current_mode];
      rewrite <- ?app_assoc; auto.
Qed.

End Operations.

End PlayerMoreFacts.

(** ** Stripping and ordering strings *)

Module PyTextFacts.
Import PyStr PyText.

Lemma lstrip_blank (s : str) :
  Forall (fun c => is_space c = true) s -> lstrip s = [].
Proof.
  induction 1 as [|c s Hc _ IH]; simpl; [reflexivity|]. now rewrite Hc.
Qed.

(** A line of white space only strips to the empty string. *)
Lemma strip_blank (s : str) :
  Forall (fun c => is_space c = true) s -> strip s = [].
Proof. intros Hs. unfold strip, rstrip. rewrite (lstrip_blank s Hs). reflexivity. Qed.

#[export] Instance le_total : Total le.
Proof.
  unfold le. intros a. induction a as [|x a IH]; intros [|y b]; simpl; auto.
  destruct (N.ltb_spec x y); [now left|].
  destruct (N.ltb_spec y x); [now right|].
  assert (x = y) as -> by lia. rewrite N.eqb_refl. simpl. apply IH.
Qed.

#[export] Instance le_trans : Transitive le.
Proof.
  unfold le. intros a. induction a as [|x a IH]; intros [|y b] [|z c]; simpl;
    try discriminate; auto.
  rewrite !orb_true_iff, !andb_true_iff, !N.ltb_lt, !N.eqb_eq.
  intros [Hxy | [-> Hab]] [Hyz | [-> Hbc]]; try (left; lia); eauto.
Qed.

#[export] Instance le_antisym : AntiSymm (=) le.
Proof.
  unfold le. intros a. induction a as [|x a IH]; intros [|y b]; simpl;
    try discriminate; auto.
  rewrite !orb_true_iff, !andb_true_iff, !N.ltb_lt, !N.eqb_eq.
  intros [Hxy | [-> Hab]] [Hyx | [Heq Hba]]; try lia.
  f_equal. now apply IH.
Qed.


End PyTextFacts.

(** ** The console of the player *)

Module PlayerConsoleFacts.
Import PyStr PyText Player PlayerFacts PlayerMoreFacts PlayerConsole PyTextFacts.



Section Loop.
Context `{Unicode}.
Variable path_exists : str -> bool.


(** The mode the loop leaves is the one it found or the stripped text of
    one of the lines typed, which then is a key of the media map and, in
    small letters, none of the words [quit], [exit], [q] and [list]: an
    emotion with such a name cannot be triggered from the console. *)
Theorem console_mode_comes_from_a_command (cmds : list str) (p : EmotionPlayer) :
  has_idle p ->
  let p' := (run_loop path_exists cmds p).1.2 in
  current_mode p' = current_mode p
  \/ exists cmd, cmd ∈ cmds
       /\ current_mode p' = strip cmd
       /\ is_Some (media_map p !! strip cmd)
       /\ lower (strip cmd) ∉ [u "quit"; u "exit"; u "q"; u "list"].
Proof.
  revert p. induction cmds as [|cmd cmds IH]; intros p Hidle; cbn [run_loop].
  - now left.
  - assert (forall q, has_idle q -> media_map q = media_map p ->
              (current_mode (run_loop path_exists cmds q).1.2 = current_mode q
               \/ exists c, c ∈ cmd :: cmds
                    /\ current_mode (run_loop path_exists cmds q).1.2 = strip c
                    /\ is_Some (media_map p !! strip c)
                    /\ lower (strip c) ∉ [u "quit"; u "exit"; u "q"; u "list"]))
      as Hrest.
    { intros q Hq Hmap. destruct (IH q Hq) as [Hsame | (c & Hc & Hmode & Hkey & Hword)].
      - now left.
      - right. exists c. rewrite elem_of_cons, <- Hmap. auto. }
    destruct (negb (truthy (strip cmd))); [now apply Hrest|].
    destruct (bool_decide (lower (strip cmd) ∈ [u "quit"; u "exit"; u "q"]))
      eqn:Hquit; [now left|].
    destruct (bool_decide (lower (strip cmd) = u "list")) eqn:Hlist.
    + specialize (Hrest p Hidle eq_refl).
      destruct (run_loop path_exists cmds p) as [[st p'] out]. exact Hrest.
    + apply bool_decide_eq_false in Hquit, Hlist.
      assert (lower (strip cmd) ∉ [u "quit"; u "exit"; u "q"; u "list"]) as Hword.
      { intros Hin. rewrite !elem_of_cons in Hin. rewrite !elem_of_cons in Hquit.
        destruct Hin as [? | [? | [? | [? | Hnil]]]]; tauto. }
      pose proof (trigger_has_idle path_exists (strip cmd) p Hidle) as Hidle'.
      destruct (media_map p !! strip cmd) as [info|] eqn:Hin.
      * destruct (trigger_of_key path_exists p (strip cmd) info Hin)
          as (Hres & Hmode).
        assert (media_map (self (trigger_emotion path_exists (strip cmd) p))
                = media_map p) as Hmap.
        { destruct (decide (strip cmd = idle_name p)) as [E | Hne].
          - destruct Hidle as [Hname _]. rewrite E, Hname.
            rewrite E in Hin.
            assert (trigger_emotion path_exists (u "idle") p
                    = _play_idle path_exists p) as ->.
            { unfold trigger_emotion, get_self, mbind, M_bind, bind.
              cbv beta iota zeta delta [result self printed].
              rewrite <- Hname, Hin. destruct (decide _); [|contradiction].
              now destruct (_play_idle path_exists p). }
            now destruct (play_idle_known path_exists info p Hin) as (_ & ? & _).
          - now destruct (trigger_known path_exists _ info p Hin Hne) as (_ & ? & _). }
        rewrite Hres.
        destruct (Hrest _ Hidle' Hmap) as [Hsame | Hlater].
        -- right. exists cmd.
           destruct (run_loop path_exists cmds _) as [[st p'] out]. simpl in *.
           rewrite elem_of_cons, Hsame, Hmode, Hin. eauto.
        -- destruct (run_loop path_exists cmds _) as [[st p'] out]. now right.
      * rewrite trigger_unknown in * by exact Hin.
        cbv beta iota zeta delta [result self printed] in *.
        specialize (Hrest p Hidle eq_refl).
        destruct (run_loop path_exists cmds p) as [[st p'] out]. exact Hrest.
Qed.

(** A line of white space only is skipped, and nothing typed after a
    quit command is carried out. *)
Theorem console_skips_blanks_and_stops_at_quit (cmd : str) (before after : list str)
    (p : EmotionPlayer) :
  (Forall (fun c => is_space c = true) cmd ->
   run_loop path_exists (cmd :: after) p = run_loop path_exists after p)
  /\ (truthy (strip cmd) = true ->
      lower (strip cmd) ∈ [u "quit"; u "exit"; u "q"] ->
      run_loop path_exists (before ++ cmd :: after) p
      = run_loop path_exists (before ++ [cmd]) p).
Proof.
  split.
  - intros Hblank. cbn [run_loop]. now rewrite (strip_blank cmd Hblank).
  - intros Hne Hquit. revert p.
    induction before as [|b before IH]; intros p; cbn [app run_loop].
    + rewrite Hne. cbn [negb]. now rewrite !bool_decide_eq_true_2 by exact Hquit.
    + destruct (negb (truthy (strip b))); [apply IH|].
      destruct (bool_decide _); [reflexivity|].
      destruct (bool_decide _).
      * now rewrite IH.
      * destruct (result _); [reflexivity|]. now rewrite IH.
Qed.

End Loop.

End PlayerConsoleFacts.

(** ** The configuration of the player *)

Module PlayerConfigFacts.
Import PyStr Dict Player PlayerFacts PlayerConfig.

(** The ["file"] of the entry is a string. *)
Definition file_is_string (meta : Json) : bool :=
  match meta with
  | JObject fields =>
      match Dict.get (u "file") fields with
      | Some (JString _) => true
      | _ => false
      end
  | _ => false
  end.

Lemma keys_set {V} (k k' : str) (v : V) (d : dict V) :
  k ∈ keys (Dict.set k' v d) <-> k = k' \/ k ∈ keys d.
Proof.
  unfold keys. induction d as [|[k0 v0] d IH]; simpl.
  - rewrite list_elem_of_singleton, elem_of_nil. tauto.
  - destruct (decide (k' = k0)) as [-> | Hne]; simpl; rewrite !elem_of_cons.
    + tauto.
    + rewrite IH. tauto.
Qed.

Lemma get_is_Some_key {V} (k : str) (d : dict V) :
  is_Some (Dict.get k d) <-> k ∈ keys d.
Proof.
  rewrite <- not_eq_None_Some, DictFacts.get_None_not_key.
  destruct (decide (k ∈ keys d)); tauto.
Qed.

Section Construction.
Variable isabs : str -> bool.
Variable abspath : str -> str.
Variable join : str -> str -> str.
Variable path_exists : str -> bool.

(** An entry that passed validation resolves exactly when its file is a
    string; otherwise [os.path.isabs] raises. *)
Lemma resolve_checked_entry (base_dir : str) (meta : Json) :
  check_entry meta = true ->
  if file_is_string meta
  then is_Some (match resolve_entry isabs abspath join base_dir meta with
                | inr info => Some info
                | inl _ => None
                end)
  else resolve_entry isabs abspath join base_dir meta = inl TypeError.
Proof.
  destruct meta as [| | | | |items|fields]; try discriminate. simpl.
  intros Hfile. apply bool_decide_eq_true in Hfile as [v Hv]. rewrite Hv. simpl.
  destruct v; simpl; eauto.
Qed.

Lemma resolve_from_strings (base_dir : str) (items : list (str * Json))
    (out : dict Resolved) :
  Forall (fun item => check_entry item.2 = true) items ->
  Forall (fun item => file_is_string item.2 = true) items ->
  exists out', resolve_from isabs abspath join base_dir items out = inr out'
    /\ forall k, k ∈ keys out' <-> k ∈ keys out \/ k ∈ keys items.
Proof.
  intros Hchk. revert out.
  induction Hchk as [|[name meta] items Hmeta _ IH]; intros out Hstr.
  - exists out. split; [reflexivity|]. intros k. unfold keys at 3. simpl.
    rewrite elem_of_nil. tauto.
  - apply Forall_cons in Hstr as [Hhead Htail]. simpl in *.
    pose proof (resolve_checked_entry base_dir meta Hmeta) as Hres.
    rewrite Hhead in Hres.
    destruct (resolve_entry isabs abspath join base_dir meta) as [e|info];
      [now destruct Hres|].
    destruct (IH (Dict.set name info out) Htail) as (out' & Hout' & Hkeys).
    exists out'. split; [exact Hout'|].
    intros k. rewrite Hkeys, keys_set. unfold keys at 3 4. simpl.
    rewrite elem_of_cons. tauto.
Qed.

Lemma resolve_from_not_string (base_dir : str) (items : list (str * Json))
    (out : dict Resolved) :
  Forall (fun item => check_entry item.2 = true) items ->
  Exists (fun item => file_is_string item.2 = false) items ->
  resolve_from isabs abspath join base_dir items out = inl TypeError.
Proof.
  intros Hchk. revert out.
  induction Hchk as [|[name meta] items Hmeta _ IH]; intros out Hbad.
  - now apply Exists_nil in Hbad.
  - simpl in *. pose proof (resolve_checked_entry base_dir meta Hmeta) as Hres.
    destruct (file_is_string meta) eqn:Hstr.
    + destruct (resolve_entry isabs abspath join base_dir meta) as [e|info];
        [now destruct Hres|].
      apply IH. apply Exists_cons in Hbad as [Hhead | Htail]; [|exact Htail].
      simpl in Hhead. congruence.
    + now rewrite Hres.
Qed.

(** What [_validate_config] accepts. *)
Lemma validate_accepts (cfg : dict Json) :
  _validate_config cfg = inr tt ->
  exists emotions,
    Dict.get (u "emotions") cfg = Some (JObject emotions)
    /\ u "idle" ∈ keys emotions
    /\ Forall (fun item => check_entry item.2 = true) emotions.
Proof.
  unfold _validate_config.
  destruct (Dict.get (u "emotions") cfg) as [[| | | | | |emotions]|]; try discriminate.
  destruct (bool_decide (is_Some (Dict.get (u "idle") emotions))) eqn:Hidle;
    [|discriminate].
  destruct (forallb _ emotions) eqn:Hall; [|discriminate].
  intros _. exists emotions. split; [reflexivity|]. split.
  - apply get_is_Some_key. now apply bool_decide_eq_true in Hidle.
  - apply Forall_forall. intros item Hin.
    rewrite forallb_forall in Hall. apply Hall. now apply list_elem_of_In.
Qed.

Lemma to_media_map_key (out : dict Resolved) (k : str) :
  is_Some (to_media_map out !! k) <-> k ∈ keys out.
Proof.
  unfold to_media_map, keys.
  rewrite <- not_eq_None_Some, <- not_elem_of_list_to_map.
  rewrite <- list_fmap_compose.
  assert (fst ∘ prod_map id media_info = (fst : str * Resolved -> str)) as ->.
  { reflexivity. }
  destruct (decide (k ∈ out.*1)); tauto.
Qed.

(** The rest of the constructor on a media map with the idle entry. *)
Lemma init_with_idle (media : gmap str MediaInfo) :
  is_Some (media !! u "idle") ->
  result (__init__ path_exists media) = inr tt
  /\ media_map (self (__init__ path_exists media)) = media
  /\ current_mode (self (__init__ path_exists media)) = u "idle".
Proof.
  intros [info Hin]. unfold __init__, _prepare_idle, get_self, mbind, M_bind, bind.
  cbv beta iota zeta delta [result self printed].
  set (p0 := {| media_map := media; current_mode := u "idle";
                idle_name := u "idle"; player := [] |}).
  change (media_map p0) with media. change (idle_name p0) with (u "idle").
  rewrite Hin.
  destruct (play_idle_known path_exists info p0 Hin) as (Hres & Hmap & _ & Hcur).
  destruct (_play_idle path_exists p0) as [res p' out].
  cbv beta iota zeta delta [result self printed] in *. auto.
Qed.

(** A configuration that [_validate_config] accepts and whose files are
    all strings always constructs: the player exists, is in idle mode, and
    its media map has exactly the names of the configuration. The check
    for the idle entry in [_prepare_idle] can then not fail. *)
Theorem validated_configuration_constructs (base_dir : str) (cfg : dict Json)
    (emotions : dict Json) :
  _validate_config cfg = inr tt ->
  Dict.get (u "emotions") cfg = Some (JObject emotions) ->
  Forall (fun item => file_is_string item.2 = true) emotions ->
  exists p,
    construct isabs abspath join path_exists base_dir cfg = inr p
    /\ reachable path_exists p
    /\ current_mode p = u "idle"
    /\ forall name, is_Some (media_map p !! name) <-> name ∈ keys emotions.
Proof.
  intros Hvalid Hget Hstr.
  destruct (validate_accepts cfg Hvalid) as (emotions' & Hget' & Hidle & Hchk).
  assert (emotions' = emotions) as -> by congruence.
  destruct (resolve_from_strings base_dir emotions [] Hchk Hstr)
    as (out & Hout & Hkeys).
  assert (is_Some (to_media_map out !! u "idle")) as Hmedia.
  { apply to_media_map_key, Hkeys. now right. }
  destruct (init_with_idle _ Hmedia) as (Hres & Hmap & Hcur).
  exists (self (__init__ path_exists (to_media_map out))).
  unfold construct, _resolve_media_paths. rewrite Hvalid, Hget, Hout.
  cbv zeta. rewrite Hres. split; [reflexivity|]. split; [|split].
  - now apply (reach_init path_exists (to_media_map out) _ eq_refl).
  - exact Hcur.
  - intros name. rewrite Hmap, to_media_map_key, Hkeys.
    unfold keys at 1. simpl. rewrite elem_of_nil. tauto.
Qed.

(** Validation checks that every entry has a ["file"], not what it is: a
    configuration that it accepts and in which some file is not a string
    ([null], a number) makes the constructor raise [TypeError] from
    [os.path.isabs], and no player is built. *)
Theorem validation_misses_file_type (base_dir : str) (cfg : dict Json)
    (emotions : dict Json) :
  _validate_config cfg = inr tt ->
  Dict.get (u "emotions") cfg = Some (JObject emotions) ->
  Exists (fun item => file_is_string item.2 = false) emotions ->
  construct isabs abspath join path_exists base_dir cfg = inl TypeError.
Proof.
  intros Hvalid Hget Hbad.
  destruct (validate_accepts cfg Hvalid) as (emotions' & Hget' & _ & Hchk).
  assert (emotions' = emotions) as -> by congruence.
  unfold construct, _resolve_media_paths. rewrite Hvalid, Hget.
  now rewrite (resolve_from_not_string base_dir emotions [] Hchk Hbad).
Qed.

End Construction.

End PlayerConfigFacts.

(** ** The orchestrator *)

Module MasterFacts.
Import PyStr PyText Router Master RouterFacts PyStrFacts.

Section MethodFacts.
Context `{Unicode}.
Variable path_exists : str -> bool.

Ltac run_act :=
  cbv beta iota zeta delta
    [andthen pure say player_trigger trigger_if value core events
     set_router set_player router player print_logs].

(** A step that returns hands its value, object and events to the next. *)
Lemma andthen_returned {A B} (m : Act A) (k : A -> Act B) (c : NestorCore) (a : A) :
  value (m c) = inr a ->
  andthen m k c
  = MkOutcome (value (k a (core (m c)))) (core (k a (core (m c))))
              (events (m c) ++ events (k a (core (m c)))).
Proof. intros Hv. unfold andthen. now rewrite Hv. Qed.

(** On a player with the idle entry [trigger_emotion] returns for every
    name. *)
Lemma trigger_returns (name : str) (p : Player.EmotionPlayer) :
  Player.has_idle p ->
  Player.result (Player.trigger_emotion path_exists name p) = inr tt.
Proof.
  intros Hidle. destruct (Player.media_map p !! name) as [info|] eqn:Hin.
  - now destruct (PlayerMoreFacts.trigger_of_key path_exists p name info Hin).
  - now rewrite PlayerFacts.trigger_unknown.
Qed.

(** [route_emotion] never raises, leaves the player alone and only logs. *)
Lemma route_emotion_effect (now : float) (text : str) (c : NestorCore) :
  exists res, value (route_emotion now text c) = inr res
    /\ player (core (route_emotion now text c)) = player c
    /\ Forall (fun ev => forall t, ev <> Say t) (events (route_emotion now text c)).
Proof.
  unfold route_emotion. destruct (router c) as [r|].
  - destruct (analyze r now text) as [r' [emo score]].
    destruct (truthy emo && negb (bool_decide (emo = u "idle"))).
    + eexists. split; [reflexivity|]. split; [reflexivity|].
      simpl. destruct (print_logs c); repeat constructor. discriminate.
    + eexists. repeat split. constructor.
  - eexists. repeat split. constructor.
Qed.

Lemma trigger_if_effect (emo : option str) (c : NestorCore) :
  Player.has_idle (player c) ->
  value (trigger_if path_exists emo c) = inr tt
  /\ Player.has_idle (player (core (trigger_if path_exists emo c)))
  /\ Forall (fun ev => forall t, ev <> Say t) (events (trigger_if path_exists emo c)).
Proof.
  intros Hidle. unfold trigger_if.
  destruct emo as [e|]; [destruct (truthy e)|];
    try (unfold pure; cbn [value core events];
         split; [reflexivity|]; split; [exact Hidle | constructor]).
  unfold player_trigger. cbn [value core events set_player player].
  rewrite trigger_returns by exact Hidle.
  split; [reflexivity|]. split.
  - now apply PlayerFacts.trigger_has_idle.
  - apply Forall_fmap, Forall_forall. intros o _ t. discriminate.
Qed.

(** [chat] never raises on a player with the idle entry, whatever the
    router decides and whether or not the emotions it names exist: it
    answers with the reply of [generate_reply], keeps the idle entry, and
    hands the reply to the speech synthesiser once, as its last action. *)
Theorem chat_always_answers (now_in now_reply : float) (text : str)
    (c : NestorCore) :
  Player.has_idle (player c) ->
  let o := chat path_exists now_in now_reply text c in
  exists res before,
    value o = inr res
    /\ reply res = generate_reply text
    /\ Player.has_idle (player (core o))
    /\ events o = before ++ [Say (generate_reply text)]
    /\ Forall (fun ev => forall t, ev <> Say t) before.
Proof.
  intros Hidle o. subst o. unfold chat.
  destruct (route_emotion_effect now_in text c) as (r_in & Hv1 & Hp1 & He1).
  rewrite (andthen_returned _ _ c r_in Hv1). cbn [value core events].
  set (c1 := core (route_emotion now_in text c)) in *.
  assert (Player.has_idle (player c1)) as Hidle1 by now rewrite Hp1.
  destruct (trigger_if_effect r_in.1 c1 Hidle1) as (Hv2 & Hidle2 & He2).
  rewrite (andthen_returned _ _ c1 tt Hv2). cbn [value core events].
  set (c2 := core (trigger_if path_exists r_in.1 c1)) in *.
  destruct (route_emotion_effect now_reply (generate_reply text) c2)
    as (r_reply & Hv3 & Hp3 & He3).
  rewrite (andthen_returned _ _ c2 r_reply Hv3). cbn [value core events].
  set (c3 := core (route_emotion now_reply (generate_reply text) c2)) in *.
  assert (Player.has_idle (player c3)) as Hidle3 by now rewrite Hp3.
  destruct (trigger_if_effect r_reply.1 c3 Hidle3) as (Hv4 & Hidle4 & He4).
  rewrite (andthen_returned _ _ c3 tt Hv4). cbn [value core events].
  set (c4 := core (trigger_if path_exists r_reply.1 c3)) in *.
  rewrite (andthen_returned (say (generate_reply text)) _ c4 tt eq_refl).
  unfold say, pure. cbn [value core events].
  eexists. eexists. split; [reflexivity|]. split; [reflexivity|].
  split; [exact Hidle4|]. split.
  - rewrite app_nil_r, !app_assoc. reflexivity.
  - repeat (apply Forall_app; split); assumption.
Qed.

(** A winner named [idle] (or with an empty name) is not reported:
    [route_emotion] answers [(None, 0.0)] and logs nothing, but the router
    has recorded the trigger, so the cooldown window is open. *)
Theorem unreported_winner_opens_cooldown (now : float) (text : str)
    (c : NestorCore) (r : EmotionRouter) (emo : str) (score : float) :
  router c = Some r ->
  PyFloat.lt (now - last_trigger_ts r) (cooldown r) = false ->
  _pick_best r (score_all r (strip_accents (lower text))) = (emo, score) ->
  PyFloat.ge score (min_score r) = true ->
  emo = u "idle" \/ emo = [] ->
  route_emotion now text c
  = MkOutcome (inr (None, 0%float)) (set_router c (Some (set_last_trigger_ts r now))) [].
Proof.
  intros Hr Hgate Hbest Hge Hemo. unfold route_emotion. rewrite Hr.
  rewrite analyze_triggers by (rewrite ?Hbest; assumption). rewrite Hbest.
  destruct Hemo as [-> | ->]; reflexivity.
Qed.

(** The orchestrator tests the name [idle], not the fallback of the
    router: with a fallback that is neither empty nor [idle], every call
    that the router answers with its fallback (inside the cooldown window,
    or under the threshold) is reported as that emotion with score 0.0. *)
Theorem custom_fallback_is_reported (now : float) (text : str)
    (c : NestorCore) (r : EmotionRouter) :
  router c = Some r ->
  fallback r <> [] -> fallback r <> u "idle" ->
  PyFloat.lt (now - last_trigger_ts r) (cooldown r) = true
  \/ PyFloat.ge (_pick_best r (score_all r (strip_accents (lower text)))).2
                (min_score r) = false ->
  route_emotion now text c
  = MkOutcome (inr (Some (fallback r), 0%float)) (set_router c (Some r))
      (if print_logs c then [RouterLog (fallback r) 0%float] else []).
Proof.
  intros Hr Hne Hidle Hwhy. unfold route_emotion. rewrite Hr.
  assert (analyze r now text = (r, (fallback r, 0%float))) as ->.
  { destruct Hwhy; [now apply analyze_gated | now apply analyze_below_threshold]. }
  assert (truthy (fallback r) = true) as ->
    by (destruct (fallback r) eqn:E; [congruence | reflexivity]).
  rewrite bool_decide_eq_false_2 by exact Hidle. reflexivity.
Qed.

(** The shared cooldown in [chat]: when the text triggers an emotion and
    the reply is routed less than [cooldown] later, the reply triggers
    nothing, whatever it says. With the fallback [idle], the answer has the
    emotion of the text and no emotion for the reply, and the player has
    received the one trigger. *)
Theorem chat_reply_is_silenced_by_cooldown (now_in now_reply : float)
    (text : str) (c : NestorCore) (r : EmotionRouter) (emo : str) (score : float) :
  router c = Some r ->
  fallback r = u "idle" ->
  Player.has_idle (player c) ->
  PyFloat.lt (now_in - last_trigger_ts r) (cooldown r) = false ->
  _pick_best r (score_all r (strip_accents (lower text))) = (emo, score) ->
  PyFloat.ge score (min_score r) = true ->
  emo <> [] -> emo <> u "idle" ->
  PyFloat.lt (now_reply - now_in) (cooldown r) = true ->
  let o := chat path_exists now_in now_reply text c in
  value o = inr {| reply := generate_reply text;
                   emotion_in := Some emo; emotion_in_score := score;
                   emotion_reply := None; emotion_reply_score := 0%float |}
  /\ router (core o) = Some (set_last_trigger_ts r now_in)
  /\ player (core o) = Player.self (Player.trigger_emotion path_exists emo (player c)).
Proof.
  intros Hr Hfb Hidle Hgate Hbest Hge Hne Hnidle Hclose o. subst o. unfold chat.
  assert (route_emotion now_in text c
          = MkOutcome (inr (Some emo, score))
              (set_router c (Some (set_last_trigger_ts r now_in)))
              (if print_logs c then [RouterLog emo score] else [])) as Hroute.
  { unfold route_emotion. rewrite Hr.
    rewrite analyze_triggers by (rewrite ?Hbest; assumption). rewrite Hbest.
    assert (truthy emo = true) as -> by (destruct emo; [congruence | reflexivity]).
    now rewrite bool_decide_eq_false_2 by exact Hnidle. }
  rewrite (andthen_returned _ _ c (Some emo, score)) by now rewrite Hroute.
  rewrite Hroute. cbn [value core events fst snd].
  set (c1 := set_router c (Some (set_last_trigger_ts r now_in))).
  assert (trigger_if path_exists (Some emo) c1 = player_trigger path_exists emo c1) as Htrig.
  { unfold trigger_if. now destruct emo. }
  rewrite (andthen_returned _ _ c1 tt);
    [|rewrite Htrig; unfold player_trigger; cbn [value];
      now apply trigger_returns].
  rewrite Htrig. cbn [value core events].
  set (c2 := core (player_trigger path_exists emo c1)).
  assert (route_emotion now_reply (generate_reply text) c2
          = MkOutcome (inr (None, 0%float)) c2 []) as Hroute2.
  { unfold route_emotion, c2, player_trigger, c1.
    cbn [core set_player set_router router player print_logs].
    rewrite analyze_gated by exact Hclose.
    cbn [fallback set_last_trigger_ts]. rewrite Hfb.
    unfold set_router. cbn [router player print_logs]. reflexivity. }
  rewrite (andthen_returned _ _ c2 (None, 0%float)) by now rewrite Hroute2.
  rewrite Hroute2. cbn [value core events fst snd].
  rewrite (andthen_returned (trigger_if path_exists None) _ c2 tt eq_refl).
  unfold trigger_if at 1 2 3. unfold pure at 1 2 3. cbn [value core events].
  rewrite (andthen_returned (say (generate_reply text)) _ c2 tt eq_refl).
  unfold say, pure. cbn [value core events].
  split; [reflexivity|].
  unfold c2, player_trigger, c1. cbn [core set_player set_router router player].
  auto.
Qed.

(** [trigger] answers [True] for every non-empty name, known or not: for
    a name that is not in the media map the player is left as it was and
    only the message is printed; for the empty name it answers [False]
    and does nothing. *)
Theorem trigger_reports_success_for_unknown (name : str) (c : NestorCore) :
  (name = [] -> trigger path_exists name c = MkOutcome (inr false) c [])
  /\ (name <> [] -> Player.media_map (player c) !! name = None ->
      trigger path_exists name c
      = MkOutcome (inr true) c [Console (Player.InfoUnknownEmotion name)]).
Proof.
  split.
  - intros ->. reflexivity.
  - intros Hne Hno. unfold trigger.
    assert (truthy name = true) as -> by (destruct name; [congruence | reflexivity]). cbn [negb].
    unfold andthen, player_trigger. cbn [value core events].
    rewrite PlayerFacts.trigger_unknown by exact Hno.
    cbn [Player.result Player.self Player.printed]. unfold pure, set_player.
    cbn [value core events]. destruct c. reflexivity.
Qed.

(** The console orchestrator does to a line what [chat] does to the
    stripped line: unless the line is absent or is [quit] or [exit], the
    same routing, triggers and speech, ending in the same object. *)
Theorem handle_text_acts_like_chat (now_in now_reply : float) (text : str)
    (c : NestorCore) :
  lower (strip text) ∉ [u "quit"; u "exit"] ->
  let o := handle_text path_exists now_in now_reply (Some text) c in
  let o' := chat path_exists now_in now_reply (strip text) c in
  core o = core o' /\ events o = events o'
  /\ (value o = inr true <-> exists res, value o' = inr res)
  /\ (forall e, value o = inl e <-> value o' = inl e).
Proof.
  intros Hword o o'. subst o o'. unfold handle_text, chat.
  rewrite bool_decide_eq_false_2 by exact Hword.
  unfold andthen.
  repeat match goal with
         | |- context [match value ?x with _ => _ end] =>
             destruct (value x) eqn:?; cbn [value core events]
         end;
    unfold say, pure in *; cbn [value core events] in *;
    repeat split; intros; try discriminate; try congruence; eauto;
    match goal with Hres : exists _, _ |- _ => destruct Hres; discriminate end.
Qed.

(** The reply to a text that is not empty and does not end in a question
    mark is an echo: ["Je t'ecoute. "] and the text. When normalisation
    turns the echo into some prefix that ends in white space followed by
    the normalised text (it works character by character on such text),
    every keyword test and every
    phrase test of the router that succeeds on the text succeeds on the
    reply as well, so the reply would trigger again without the
    cooldown. *)
Theorem echo_reply_matches_again (text k prefix : str) :
  truthy text = true ->
  endswith text (u "?") = false ->
  strip_accents (lower ((u "Je t'" ++ [233%N] ++ u "coute. ") ++ text))
    = prefix ++ strip_accents (lower text) ->
  delimited_left prefix ->
  (in_list k (split (strip_accents (lower text))) = true ->
   in_list k (split (strip_accents (lower (generate_reply text)))) = true)
  /\ (contains (strip_accents (lower text)) k = true ->
      contains (strip_accents (lower (generate_reply text))) k = true).
Proof.
  intros Htext Hstatement Hnorm Hprefix.
  assert (generate_reply text = (u "Je t'" ++ [233%N] ++ u "coute. ") ++ text) as ->.
  { unfold generate_reply. now rewrite Htext, Hstatement. }
  rewrite Hnorm, !in_split_spec, !contains_spec. split.
  - intros (Hne & Hns & pre & post & E & Hl & Hr). repeat split; auto.
    exists (prefix ++ pre), post. rewrite E, <- app_assoc.
    repeat split; auto.
    destruct Hl as [-> | (p & c & -> & Hc)].
    + now rewrite app_nil_r.
    + right. exists (prefix ++ p), c. now rewrite <- app_assoc.
  - intros (pre & post & E). exists (prefix ++ pre), post.
    now rewrite E, <- app_assoc.
Qed.

End MethodFacts.

End MasterFacts.

(** ** The further properties on concrete inputs *)

Module MoreScenarioFacts.
Import PyStr PyText Dict Latin1 Scenario PlayerScenario MoreScenario.
Import PyStrFacts RouterFacts RouterMoreFacts PlayerFacts PlayerMoreFacts.
Import PlayerConsole PlayerConsoleFacts PlayerConfig PlayerConfigFacts.
Import Master MasterFacts.

(** Two emotions tied on 0.0: the first one wins although the second has
    the higher priority. *)
Lemma first_declared_wins_without_priority_witness :
  Router._pick_best (Router.__init__ (tie_config (Some 1) (Some 5)))
    [(u "joie", 0%float); (u "surprise", 0%float)]
  = (u "joie", 0%float).
Proof.
  apply (first_declared_wins_without_priority
           (Router.__init__ (tie_config (Some 1) (Some 5)))
           [] [(u "surprise", 0%float)] (u "joie") 0%float).
  - reflexivity.
  - constructor.
  - constructor; [right; reflexivity | constructor].
  - right. reflexivity.
Defined.

(** Three emotions tied on 2.0 with priorities 1, 5 and 5: the first of
    the two with priority 5 wins. *)
Lemma highest_priority_wins_among_tied_witness :
  Router._pick_best (Router.__init__ three_way_config)
    [(u "joie", 2%float); (u "surprise", 2%float); (u "colere", 2%float)]
  = (u "surprise", 2%float).
Proof.
  apply (highest_priority_wins_among_tied (Router.__init__ three_way_config)
           [(u "joie", 2%float)] [(u "colere", 2%float)] (u "surprise") 2%float).
  - reflexivity.
  - reflexivity.
  - constructor; [|constructor].
    right. split; [reflexivity | vm_compute; reflexivity].
  - constructor; [|constructor].
    right. split; [reflexivity | vm_compute; discriminate].
Defined.

(** The empty text on the scenario's router. *)
Lemma no_match_gives_fallback_witness :
  Router.analyze (Router.__init__ default_config) 1000 []
  = (Router.__init__ default_config, (u "idle", 0%float)).
Proof.
  apply (no_match_gives_fallback (Router.__init__ default_config) 1000%float []).
  - repeat constructor; simpl.
    + intros Hw. apply in_split_spec in Hw. vm_compute in Hw. discriminate.
    + intros Hs. apply contains_spec in Hs. vm_compute in Hs. discriminate.
  - reflexivity.
Defined.

(** The empty JSON object as configuration. *)
Lemma unconfigured_router_is_silent_witness :
  Router.analyze (Router.__init__ {| Router.cfg_routing := None |}) 1000
    (u "mon chat est mort")
  = (Router.__init__ {| Router.cfg_routing := None |}, (u "idle", 0%float)).
Proof.
  apply (unconfigured_router_is_silent {| Router.cfg_routing := None |}).
  reflexivity.
Defined.

(** A new player, and a name that is not in its media map. *)
Lemma player_operations_are_safe_witness :
  let p := Player.self (Player.__init__ all_present media) in
  is_Some (Player.media_map p !! Player.current_mode p)
  /\ Player.result (Player.trigger_emotion all_present (u "colere") p) = inr tt
  /\ Player.media_map (Player.self (Player.trigger_emotion all_present (u "colere") p))
     = Player.media_map p
  /\ Player.result (Player._on_media_end all_present p) = inr tt
  /\ Player.media_map (Player.self (Player._on_media_end all_present p))
     = Player.media_map p.
Proof.
  apply (player_operations_are_safe all_present).
  exact (Player.reach_init all_present media _ eq_refl eq_refl).
Defined.

(** [joie] is flagged to loop and its file is missing: it is played once,
    with a warning. *)
Lemma playback_ignores_loop_flag_witness :
  let p := Player.self (Player.__init__ only_idle_present contrary_media) in
  let r := Player.trigger_emotion only_idle_present (u "joie") p in
  Player.result r = inr tt
  /\ Player.current_mode (Player.self r) = u "joie"
  /\ Player.player (Player.self r)
     = Player.player p
       ++ [Player.SetMedia (u "/videos/joie.mp4"); Player.Play]
  /\ Player.printed r
     = [Player.WarnMissingFile (u "joie") (u "/videos/joie.mp4")].
Proof.
  apply (playback_ignores_loop_flag only_idle_present
           (Player.self (Player.__init__ only_idle_present contrary_media))
           (u "joie")
           {| Player.file := u "/videos/joie.mp4"; Player.loop := true;
              Player.description := u "content" |}).
  vm_compute. reflexivity.
Defined.


Lemma console_mode_comes_from_a_command_witness :
  let p := Player.self (Player.__init__ all_present media_with_list) in
  let cmds := [u "  joie "; u "list"] in
  let p' := (run_loop all_present cmds p).1.2 in
  Player.current_mode p' = Player.current_mode p
  \/ exists cmd, cmd ∈ cmds
       /\ Player.current_mode p' = strip cmd
       /\ is_Some (Player.media_map p !! strip cmd)
       /\ lower (strip cmd) ∉ [u "quit"; u "exit"; u "q"; u "list"].
Proof.
  apply (console_mode_comes_from_a_command all_present).
  split; [reflexivity | eexists; vm_compute; reflexivity].
Defined.

(** A configuration with a relative and an absolute file. *)
Lemma validated_configuration_constructs_witness :
  exists p,
    construct posix_isabs posix_abspath posix_join all_present (u "/etc/nestor")
      (player_json (JString (u "/abs/joie.mp4"))) = inr p
    /\ Player.reachable all_present p
    /\ Player.current_mode p = u "idle"
    /\ forall name,
         is_Some (Player.media_map p !! name)
         <-> name ∈ keys [(u "idle", JObject [(u "file", JString (u "idle.mp4"));
                                              (u "loop", JBool true)]);
                          (u "joie", JObject [(u "file", JString (u "/abs/joie.mp4"))])].
Proof.
  apply (validated_configuration_constructs posix_isabs posix_abspath posix_join
           all_present (u "/etc/nestor") (player_json (JString (u "/abs/joie.mp4")))).
  - reflexivity.
  - reflexivity.
  - repeat constructor.
Defined.

(** The same configuration with [null] as the file of [joie]. *)
Lemma validation_misses_file_type_witness :
  _validate_config (player_json JNull) = inr tt
  /\ construct posix_isabs posix_abspath posix_join all_present (u "/etc/nestor")
       (player_json JNull) = inl TypeError.
Proof.
  split; [reflexivity|].
  apply (validation_misses_file_type posix_isabs posix_abspath posix_join
           all_present (u "/etc/nestor") (player_json JNull)
           [(u "idle", JObject [(u "file", JString (u "idle.mp4"));
                                (u "loop", JBool true)]);
            (u "joie", JObject [(u "file", JNull)])]).
  - reflexivity.
  - reflexivity.
  - apply Exists_cons_tl, Exists_cons_hd. reflexivity.
Defined.

Lemma scenario_core_has_idle (c : Router.Cfg) : Player.has_idle (player (scenario_core c)).
Proof. split; [reflexivity | eexists; vm_compute; reflexivity]. Qed.

(** [chat] on a text that names no emotion of the player. *)
Lemma chat_always_answers_witness :
  let o := chat all_present 1000 1000.5 (u "mon chat est mort")
             (scenario_core default_config) in
  exists res before,
    value o = inr res
    /\ reply res = generate_reply (u "mon chat est mort")
    /\ Player.has_idle (player (core o))
    /\ events o = before ++ [Say (generate_reply (u "mon chat est mort"))]
    /\ Forall (fun ev => forall t, ev <> Say t) before.
Proof.
  apply (chat_always_answers all_present 1000 1000.5 (u "mon chat est mort")
           (scenario_core default_config)).
  apply scenario_core_has_idle.
Defined.

(** [calme] makes [idle] win with 2.0. *)
Lemma unreported_winner_opens_cooldown_witness :
  route_emotion 1000 (u "du calme") (scenario_core idle_keyword_config)
  = MkOutcome (inr (None, 0%float))
      (set_router (scenario_core idle_keyword_config)
         (Some (Router.set_last_trigger_ts (Router.__init__ idle_keyword_config) 1000)))
      [].
Proof.
  apply (unreported_winner_opens_cooldown 1000 (u "du calme")
           (scenario_core idle_keyword_config)
           (Router.__init__ idle_keyword_config) (u "idle") 2%float).
  - reflexivity.
  - reflexivity.
  - vm_compute. reflexivity.
  - reflexivity.
  - left. reflexivity.
Defined.

(** With the fallback [neutre], a text that matches nothing is reported as
    the emotion [neutre]. *)
Lemma custom_fallback_is_reported_witness :
  route_emotion 1000 (u "tout va bien") (scenario_core neutral_fallback_config)
  = MkOutcome (inr (Some (u "neutre"), 0%float))
      (scenario_core neutral_fallback_config)
      [RouterLog (u "neutre") 0%float].
Proof.
  apply (custom_fallback_is_reported 1000 (u "tout va bien")
           (scenario_core neutral_fallback_config)
           (Router.__init__ neutral_fallback_config)).
  - reflexivity.
  - discriminate.
  - discriminate.
  - right. vm_compute. reflexivity.
Defined.

(** The text triggers [tristesse]; the reply, which repeats the text half
    a second later, triggers nothing. *)
Lemma chat_reply_is_silenced_by_cooldown_witness :
  let c := scenario_core default_config in
  let o := chat all_present 1000 1000.5 (u "mon chat est mort") c in
  value o = inr {| reply := generate_reply (u "mon chat est mort");
                   emotion_in := Some (u "tristesse"); emotion_in_score := 3%float;
                   emotion_reply := None; emotion_reply_score := 0%float |}
  /\ router (core o)
     = Some (Router.set_last_trigger_ts (Router.__init__ default_config) 1000)
  /\ player (core o)
     = Player.self (Player.trigger_emotion all_present (u "tristesse") (player c)).
Proof.
  apply (chat_reply_is_silenced_by_cooldown all_present 1000 1000.5
           (u "mon chat est mort") (scenario_core default_config)
           (Router.__init__ default_config) (u "tristesse") 3%float).
  - reflexivity.
  - reflexivity.
  - apply scenario_core_has_idle.
  - reflexivity.
  - vm_compute. reflexivity.
  - reflexivity.
  - discriminate.
  - discriminate.
  - reflexivity.
Defined.

Lemma handle_text_acts_like_chat_witness :
  let c := scenario_core default_config in
  let o := handle_text all_present 1000 1000.5 (Some (u "  mon chat est mort ")) c in
  let o' := chat all_present 1000 1000.5 (strip (u "  mon chat est mort ")) c in
  core o = core o' /\ events o = events o'
  /\ (value o = inr true <-> exists res, value o' = inr res)
  /\ (forall e, value o = inl e <-> value o' = inl e).
Proof.
  apply (handle_text_acts_like_chat all_present 1000 1000.5
           (u "  mon chat est mort ") (scenario_core default_config)).
  intros Hin. rewrite !elem_of_cons, elem_of_nil in Hin.
  destruct Hin as [Hq | [He | []]]; [vm_compute in Hq | vm_compute in He];
    discriminate.
Defined.

(** The echo of [je suis triste] holds the token [triste] again. *)
Lemma echo_reply_matches_again_witness :
  in_list (u "triste")
    (split (Router.strip_accents (lower (generate_reply (u "je suis triste")))))
  = true
  /\ contains (Router.strip_accents (lower (generate_reply (u "je suis triste"))))
       (u "triste")
     = true.
Proof.
  destruct (echo_reply_matches_again (u "je suis triste") (u "triste")
              (u "je t'ecoute. ")) as [Hkw Hph].
  - reflexivity.
  - reflexivity.
  - vm_compute. reflexivity.
  - right. exists (u "je t'ecoute."), 32%N. split; reflexivity.
  - split; [apply Hkw | apply Hph]; vm_compute; reflexivity.
Defined.

End MoreScenarioFacts.
